(** * Softmax layer, GPU path (src/caffe/layers/softmax_layer.cu)

    A shallow embedding of the six kernels of the file and of
    [SoftmaxLayer<Dtype>::Forward_gpu] / [Backward_gpu], with the device
    memory as an explicit store so that buffers handed in twice (in-place
    layers, where [bottom[0]] and [top[0]] are the same blob) alias.

    - [int] values are modelled as [Z]; [/] and [%] are C's truncating
      [Z.quot] and [Z.rem].  Signed overflow is undefined in C, so the model
      agrees with the code as long as [count] fits an [int].
    - [Dtype] is the template parameter: a type with the operations the
      kernels use, given as a class.  What does not depend on the arithmetic
      is proved for every such type.  Order facts about the maximum and the
      subtraction, and formulas the code evaluates operation by operation,
      are stated at the instance of the real numbers; what rounding,
      underflow or NaN decide is evaluated at the instance of IEEE binary64,
      the [double] instantiation of the layer. *)

From Stdlib Require Import ZArith List Lia Bool Reals Lra.
From Stdlib Require Import PrimFloat.
Import ListNotations.
Local Open Scope Z_scope.

(** ** The element type *)

Class DtypeOps (Dtype : Type) : Type := {
  d_zero : Dtype;                      (* the literal 0 of [Dtype sum = 0] *)
  d_neg_FLT_MAX : Dtype;               (* [-FLT_MAX] converted to [Dtype] *)
  d_max : Dtype -> Dtype -> Dtype;     (* [max(a, b)] *)
  d_add : Dtype -> Dtype -> Dtype;
  d_sub : Dtype -> Dtype -> Dtype;
  d_mul : Dtype -> Dtype -> Dtype;
  d_div : Dtype -> Dtype -> Dtype;
  d_exp : Dtype -> Dtype               (* [exp(a)] *)
}.

(** ** Device memory

    A device pointer as handed out by a blob is the base of an allocation;
    two pointers are either the same buffer or disjoint ones.  The store maps
    a buffer and an offset to the element held there. *)

Definition ptr := Z.

Definition mem (Dtype : Type) : Type := ptr -> Z -> Dtype.

Definition store {Dtype : Type} (m : mem Dtype) (p : ptr) (i : Z) (v : Dtype)
  : mem Dtype :=
  fun q j => if (q =? p) && (j =? i) then v else m q j.

(** ** Loops *)

(** [for (int c = 0; c < k; ++c) a = body(c, a);] for a bound already
    converted to a number of iterations: the body runs at 0, 1, ..., k-1 in
    that order. *)
Fixpoint loop_upto {A : Type} (k : nat) (body : Z -> A -> A) (a : A) : A :=
  match k with
  | O => a
  | S k' => body (Z.of_nat k') (loop_upto k' body a)
  end.

(** [for (int c = 0; c < bound; ++c)]: no iteration when [bound <= 0]. *)
Definition for_int {A : Type} (bound : Z) (body : Z -> A -> A) (a : A) : A :=
  loop_upto (Z.to_nat bound) body a.

(** Modelled from the spec: the macro [CUDA_KERNEL_LOOP(index, n)] is declared
    outside this file.  The execution substrate supplies a parallel-loop index
    and an upper bound, and the kernel body runs once for every index in
    [0, n).  The workers are run here one after the other in index order. *)
Definition CUDA_KERNEL_LOOP {Dtype : Type} (n : Z)
    (body : Z -> mem Dtype -> mem Dtype) (m : mem Dtype) : mem Dtype :=
  for_int n body m.

(** ** Blobs and the layer *)

Record Blob : Type := {
  data_ : ptr;
  diff_ : ptr;
  num : Z;
  channels : Z;
  height : Z;
  width : Z
}.

(** Modelled from the spec: the blob accessors are declared outside this
    file.  [count = num * channels * spatial_dim] with
    [spatial_dim = height * width]; the const and the mutable accessor of a
    buffer return the same device pointer. *)
Definition count (b : Blob) : Z := num b * channels b * height b * width b.
Definition gpu_data (b : Blob) : ptr := data_ b.
Definition mutable_gpu_data (b : Blob) : ptr := data_ b.
Definition gpu_diff (b : Blob) : ptr := diff_ b.
Definition mutable_gpu_diff (b : Blob) : ptr := diff_ b.

Inductive Backend : Type := BACKEND_CUDA | BACKEND_OpenCL.

Record SoftmaxLayer : Type := {
  device_context_backend : Backend;
  scale_ : Blob
}.

Section Kernels.

Context {Dtype : Type} {ops : DtypeOps Dtype}.

(** Modelled from the spec: [caffe_copy] is a library primitive declared
    outside this file; it copies [N] elements from [X] to [Y]. *)
Definition caffe_copy (N : Z) (X Y : ptr) (m : mem Dtype) : mem Dtype :=
  for_int N (fun i m => store m Y i (m X i)) m.

(** Modelled from the spec: [caffe_gpu_mul] is the generic elementwise
    multiply declared outside this file, [y[i] = a[i] * b[i]] for [i] in
    [0, N). *)
Definition caffe_gpu_mul (N : Z) (a b y : ptr) (m : mem Dtype) : mem Dtype :=
  for_int N (fun i m => store m y i (d_mul (m a i) (m b i))) m.

Definition kernel_channel_max (num channels spatial_dim : Z)
    (data out : ptr) (m : mem Dtype) : mem Dtype :=
  CUDA_KERNEL_LOOP (num * spatial_dim) (fun index m =>
    let n := index ÷ spatial_dim in
    let s := Z.rem index spatial_dim in
    let maxval := d_neg_FLT_MAX in
    let maxval :=
      for_int channels (fun c maxval =>
        d_max (m data ((n * channels + c) * spatial_dim + s)) maxval) maxval in
    store m out index maxval) m.

Definition kernel_channel_subtract (count num channels spatial_dim : Z)
    (channel_max data : ptr) (m : mem Dtype) : mem Dtype :=
  CUDA_KERNEL_LOOP count (fun index m =>
    let n := index ÷ channels ÷ spatial_dim in
    let s := Z.rem index spatial_dim in
    store m data index
      (d_sub (m data index) (m channel_max (n * spatial_dim + s)))) m.

Definition kernel_exp (count : Z) (data out : ptr) (m : mem Dtype) : mem Dtype :=
  CUDA_KERNEL_LOOP count (fun index m =>
    store m out index (d_exp (m data index))) m.

Definition kernel_channel_sum (num channels spatial_dim : Z)
    (data channel_sum : ptr) (m : mem Dtype) : mem Dtype :=
  CUDA_KERNEL_LOOP (num * spatial_dim) (fun index m =>
    let n := index ÷ spatial_dim in
    let s := Z.rem index spatial_dim in
    let sum := d_zero in
    let sum :=
      for_int channels (fun c sum =>
        d_add sum (m data ((n * channels + c) * spatial_dim + s))) sum in
    store m channel_sum index sum) m.

Definition kernel_channel_div (count num channels spatial_dim : Z)
    (channel_sum data : ptr) (m : mem Dtype) : mem Dtype :=
  CUDA_KERNEL_LOOP count (fun index m =>
    let n := index ÷ channels ÷ spatial_dim in
    let s := Z.rem index spatial_dim in
    store m data index
      (d_div (m data index) (m channel_sum (n * spatial_dim + s)))) m.

Definition kernel_channel_dot (num channels spatial_dim : Z)
    (data_1 data_2 channel_dot : ptr) (m : mem Dtype) : mem Dtype :=
  CUDA_KERNEL_LOOP (num * spatial_dim) (fun index m =>
    let n := index ÷ spatial_dim in
    let s := Z.rem index spatial_dim in
    let dot := d_zero in
    let dot :=
      for_int channels (fun c dot =>
        d_add dot
          (d_mul (m data_1 ((n * channels + c) * spatial_dim + s))
                 (m data_2 ((n * channels + c) * spatial_dim + s)))) dot in
    store m channel_dot index dot) m.

(** ** The forward pass *)

(** The OpenCL program of the other backend is not part of this file: its
    kernels, looked up by name, and [greentea_copy] are taken as they come. *)
Record GreenteaProgram : Type := {
  greentea_copy : Z -> ptr -> ptr -> mem Dtype -> mem Dtype;
  oclk_channel_max : Z -> Z -> Z -> ptr -> ptr -> mem Dtype -> mem Dtype;
  oclk_channel_subtract : Z -> Z -> Z -> Z -> ptr -> ptr -> mem Dtype -> mem Dtype;
  oclk_exp : Z -> ptr -> ptr -> mem Dtype -> mem Dtype;
  oclk_channel_sum : Z -> Z -> Z -> ptr -> ptr -> mem Dtype -> mem Dtype;
  oclk_channel_div : Z -> Z -> Z -> Z -> ptr -> ptr -> mem Dtype -> mem Dtype
}.

(** The CUDA branch up to and including the broadcast subtraction. *)
Definition forward_cuda_subtracted (count num channels spatial_dim : Z)
    (bottom_data top_data scale_data : ptr) (m : mem Dtype) : mem Dtype :=
  let m := caffe_copy count bottom_data top_data m in
  let m := kernel_channel_max num channels spatial_dim top_data scale_data m in
  kernel_channel_subtract count num channels spatial_dim scale_data top_data m.

(** The CUDA branch up to and including the channel sum. *)
Definition forward_cuda_summed (count num channels spatial_dim : Z)
    (bottom_data top_data scale_data : ptr) (m : mem Dtype) : mem Dtype :=
  let m := forward_cuda_subtracted count num channels spatial_dim
             bottom_data top_data scale_data m in
  let m := kernel_exp (num * channels * spatial_dim) top_data top_data m in
  kernel_channel_sum num channels spatial_dim top_data scale_data m.

(** [use_greentea] is the preprocessor symbol [USE_GREENTEA]; [bottom[0]] and
    [top[0]] on an empty vector have no defined behaviour, which is [None]. *)
Definition Forward_gpu (use_greentea : bool) (program : GreenteaProgram)
    (this : SoftmaxLayer) (bottom top : list Blob) (m : mem Dtype) : option (mem Dtype) :=
  match bottom, top with
  | bottom0 :: _, top0 :: _ =>
    match device_context_backend this with
    | BACKEND_CUDA =>
      let bottom_data := gpu_data bottom0 in
      let top_data := mutable_gpu_data top0 in
      let scale_data := mutable_gpu_data (scale_ this) in
      let count := count bottom0 in
      let num := num bottom0 in
      let channels := channels bottom0 in
      let spatial_dim := height bottom0 * width bottom0 in
      let m := forward_cuda_summed count num channels spatial_dim
                 bottom_data top_data scale_data m in
      Some (kernel_channel_div count num channels spatial_dim
              scale_data top_data m)
    | BACKEND_OpenCL =>
      if use_greentea then
        let bottom_data := gpu_data bottom0 in
        let top_data := mutable_gpu_data top0 in
        let scale_data := mutable_gpu_data (scale_ this) in
        let count := count bottom0 in
        let num := num bottom0 in
        let channels := channels bottom0 in
        let spatial_dim := height bottom0 * width bottom0 in
        let m := greentea_copy program count bottom_data top_data m in
        let m := oclk_channel_max program num channels spatial_dim
                   top_data scale_data m in
        let m := oclk_channel_subtract program count num channels spatial_dim
                   scale_data top_data m in
        let m := oclk_exp program (num * channels * spatial_dim)
                   top_data top_data m in
        let m := oclk_channel_sum program num channels spatial_dim
                   top_data scale_data m in
        Some (oclk_channel_div program count num channels spatial_dim
                scale_data top_data m)
      else Some m
    end
  | _, _ => None
  end.

(** ** The backward pass *)

Definition Backward_gpu (this : SoftmaxLayer) (top : list Blob)
    (propagate_down : list bool) (bottom : list Blob) (m : mem Dtype)
  : option (mem Dtype) :=
  match top, bottom with
  | top0 :: _, bottom0 :: _ =>
    let top_diff := gpu_diff top0 in
    let top_data := gpu_data top0 in
    let bottom_diff := mutable_gpu_diff bottom0 in
    let scale_data := mutable_gpu_data (scale_ this) in
    let count := count top0 in
    let num := num top0 in
    let channels := channels top0 in
    let spatial_dim := height top0 * width top0 in
    let m := caffe_copy count top_diff bottom_diff m in
    let m := kernel_channel_dot num channels spatial_dim
               top_diff top_data scale_data m in
    let m := kernel_channel_subtract count num channels spatial_dim
               scale_data bottom_diff m in
    Some (caffe_gpu_mul count bottom_diff top_data bottom_diff m)
  | _, _ => None
  end.

(** The scans of the three reduction kernels over the channels of one group,
    [x c] being the element of channel [c]. *)
Definition scan_max (channels : Z) (x : Z -> Dtype) : Dtype :=
  for_int channels (fun c maxval => d_max (x c) maxval) d_neg_FLT_MAX.

Definition scan_sum (channels : Z) (x : Z -> Dtype) : Dtype :=
  for_int channels (fun c sum => d_add sum (x c)) d_zero.

End Kernels.

(** Linear index of element (n, c, s) of a tensor, and of group (n, s) of the
    scratch buffer. *)
Definition linear_index (channels spatial_dim n c s : Z) : Z :=
  (n * channels + c) * spatial_dim + s.

Definition group_index (spatial_dim n s : Z) : Z := n * spatial_dim + s.

(** ** Exact arithmetic

    The element type read as the real numbers, every operation exact.
    [FLT_MAX] and [DBL_MAX] are the constants of <cfloat>.

    This is an idealisation of [float] and [double]: it has no rounding, its
    [exp] never underflows to 0 and it has no NaN.  A value computed with it
    is the value the code computes only where none of the three matters; the
    behaviour of the code where they do is evaluated with [double_ops]
    below. *)

Definition FLT_MAX : R := IZR ((2 ^ 24 - 1) * 2 ^ 104).
Definition DBL_MAX : R := IZR ((2 ^ 53 - 1) * 2 ^ 971).

#[export] Instance R_ops : DtypeOps R := {|
  d_zero := 0%R;
  d_neg_FLT_MAX := (- FLT_MAX)%R;
  d_max := Rmax;
  d_add := Rplus;
  d_sub := Rminus;
  d_mul := Rmult;
  d_div := Rdiv;
  d_exp := exp
|}.

(** The two instantiations of the layer and the range of finite values of
    each. *)
Inductive Precision : Type := Single | Double.

Definition lowest_finite (w : Precision) : R :=
  match w with
  | Single => (- FLT_MAX)%R
  | Double => (- DBL_MAX)%R
  end.

Definition in_range (w : Precision) (x : R) : Prop :=
  (lowest_finite w <= x <= - lowest_finite w)%R.

(** *** What the spec asks for, in its own words *)

(** [v] is the maximum of [x c] over [c] in [0, channels). *)
Definition is_max_c (channels : Z) (x : Z -> R) (v : R) : Prop :=
  (exists c, 0 <= c < channels /\ v = x c) /\
  (forall c, 0 <= c < channels -> (x c <= v)%R).

(** The maximum of [x 0], ..., [x k]. *)
Fixpoint max_upto (k : nat) (x : Z -> R) : R :=
  match k with
  | O => x 0
  | S k' => Rmax (max_upto k' x) (x (Z.of_nat (S k')))
  end.

(** max over c in [0, channels), for [channels >= 1]. *)
Definition max_c (channels : Z) (x : Z -> R) : R :=
  max_upto (Z.to_nat (channels - 1)) x.

(** sum over c in [0, channels). *)
Fixpoint sum_upto (k : nat) (f : Z -> R) : R :=
  match k with
  | O => 0%R
  | S k' => (sum_upto k' f + f (Z.of_nat k'))%R
  end.

Definition sum_c (channels : Z) (f : Z -> R) : R :=
  sum_upto (Z.to_nat channels) f.

(** [exp(x_c - a) / sum_c exp(x_c - a)], the softmax with the shift [a]. *)
Definition softmax_at (channels : Z) (x : Z -> R) (a : R) (c : Z) : R :=
  (exp (x c - a) / sum_c channels (fun c' => exp (x c' - a)))%R.

(** [exp(x_c - max_c x) / sum_c exp(x_c - max_c x)]. *)
Definition softmax_ref (channels : Z) (x : Z -> R) (c : Z) : R :=
  softmax_at channels x (max_c channels x) c.

(** The inner product across channels. *)
Definition dot_c (channels : Z) (g y : Z -> R) : R :=
  sum_c channels (fun c => (g c * y c)%R).

(** Element (n, c, s) of the tensor of shape [b] held at [p]. *)
Definition at_ncs (m : mem R) (p : ptr) (b : Blob) (n c s : Z) : R :=
  m p (linear_index (channels b) (height b * width b) n c s).

(** ** Concrete configurations

    One image of two channels at a single position, holding [1.0, 2.0]; the
    output blob and the scratch blob of the layer are buffers of their own. *)

Definition demo_bottom : Blob :=
  {| data_ := 1; diff_ := 2; num := 1; channels := 2; height := 1; width := 1 |}.

Definition demo_top : Blob :=
  {| data_ := 3; diff_ := 4; num := 1; channels := 2; height := 1; width := 1 |}.

Definition demo_scale : Blob :=
  {| data_ := 5; diff_ := 6; num := 1; channels := 1; height := 1; width := 1 |}.

Definition demo_layer : SoftmaxLayer :=
  {| device_context_backend := BACKEND_CUDA; scale_ := demo_scale |}.

Definition demo_mem : mem R :=
  fun p i => if p =? 1 then (if i =? 0 then 1%R else 2%R) else 0%R.

(** An OpenCL program whose kernels do nothing, for configurations that run
    on the CUDA backend. *)
Definition idle_program : @GreenteaProgram R :=
  {| greentea_copy := fun _ _ _ m => m;
     oclk_channel_max := fun _ _ _ _ _ m => m;
     oclk_channel_subtract := fun _ _ _ _ _ _ m => m;
     oclk_exp := fun _ _ _ m => m;
     oclk_channel_sum := fun _ _ _ _ _ m => m;
     oclk_channel_div := fun _ _ _ _ _ _ m => m |}.

(** A double precision value below [-FLT_MAX]: [-2^130], and a store holding
    it everywhere. *)
Definition below_single : R := IZR (- 2 ^ 130).

Definition below_single_mem : mem R := fun _ _ => below_single.

(** ** Workers and schedules

    The body of each kernel as a function of the index it runs at, so that a
    kernel can be run with its workers in another order. *)

(** Modelled from the spec: how the execution substrate orders the workers of
    one launch is decided outside this file.  [run_workers order body] runs
    the body once at every index of [order], one worker after the other;
    [schedule n order] says that [order] lists every index of [0, n) once. *)
Definition run_workers {Dtype : Type} (order : list Z)
    (body : Z -> mem Dtype -> mem Dtype) (m : mem Dtype) : mem Dtype :=
  fold_left (fun m index => body index m) order m.

Definition schedule (n : Z) (order : list Z) : Prop :=
  NoDup order /\ forall index, In index order <-> 0 <= index < n.

Section Workers.

Context {Dtype : Type} {ops : DtypeOps Dtype}.

Definition kernel_channel_max_worker (num channels spatial_dim : Z)
    (data out : ptr) (index : Z) (m : mem Dtype) : mem Dtype :=
  let n := index ÷ spatial_dim in
  let s := Z.rem index spatial_dim in
  let maxval := d_neg_FLT_MAX in
  let maxval :=
    for_int channels (fun c maxval =>
      d_max (m data ((n * channels + c) * spatial_dim + s)) maxval) maxval in
  store m out index maxval.

Definition kernel_channel_subtract_worker (count num channels spatial_dim : Z)
    (channel_max data : ptr) (index : Z) (m : mem Dtype) : mem Dtype :=
  let n := index ÷ channels ÷ spatial_dim in
  let s := Z.rem index spatial_dim in
  store m data index
    (d_sub (m data index) (m channel_max (n * spatial_dim + s))).

Definition kernel_exp_worker (count : Z) (data out : ptr) (index : Z)
    (m : mem Dtype) : mem Dtype :=
  store m out index (d_exp (m data index)).

Definition kernel_channel_sum_worker (num channels spatial_dim : Z)
    (data channel_sum : ptr) (index : Z) (m : mem Dtype) : mem Dtype :=
  let n := index ÷ spatial_dim in
  let s := Z.rem index spatial_dim in
  let sum := d_zero in
  let sum :=
    for_int channels (fun c sum =>
      d_add sum (m data ((n * channels + c) * spatial_dim + s))) sum in
  store m channel_sum index sum.

Definition kernel_channel_div_worker (count num channels spatial_dim : Z)
    (channel_sum data : ptr) (index : Z) (m : mem Dtype) : mem Dtype :=
  let n := index ÷ channels ÷ spatial_dim in
  let s := Z.rem index spatial_dim in
  store m data index
    (d_div (m data index) (m channel_sum (n * spatial_dim + s))).

Definition kernel_channel_dot_worker (num channels spatial_dim : Z)
    (data_1 data_2 channel_dot : ptr) (index : Z) (m : mem Dtype)
  : mem Dtype :=
  let n := index ÷ spatial_dim in
  let s := Z.rem index spatial_dim in
  let dot := d_zero in
  let dot :=
    for_int channels (fun c dot =>
      d_add dot
        (d_mul (m data_1 ((n * channels + c) * spatial_dim + s))
               (m data_2 ((n * channels + c) * spatial_dim + s)))) dot in
  store m channel_dot index dot.

End Workers.

(** ** More concrete configurations *)

(** A blob with no channel. *)
Definition empty_bottom : Blob :=
  {| data_ := 1; diff_ := 2; num := 1; channels := 0; height := 1; width := 1 |}.

(** A store that holds a softmax output [1/4, 3/4] as the top data and
    [1, 0] as the top gradient of [demo_top]. *)
Definition grad_mem : mem R :=
  fun p i =>
    if p =? 3 then (if i =? 0 then (1 / 4)%R else (3 / 4)%R)
    else if p =? 4 then (if i =? 0 then 1%R else 0%R)
    else 0%R.

(** ** Double precision

    [Dtype = double] as IEEE binary64: [+], [-], [*] and [/] are the
    correctly rounded primitive operations and [max] is [fmax], which
    returns the other argument when one is NaN.  [exp] belongs to the CUDA
    math library, not to this file, and is taken as a parameter. *)

Definition fmax (a b : float) : float :=
  if PrimFloat.is_nan a then b
  else if PrimFloat.is_nan b then a
  else if PrimFloat.ltb b a then a else b.

(** [-FLT_MAX], a [float] constant, converted to [double]. *)
Definition double_neg_FLT_MAX : float := (-0x1.fffffep127)%float.

Definition double_ops (exp_double : float -> float) : DtypeOps float := {|
  d_zero := 0%float;
  d_neg_FLT_MAX := double_neg_FLT_MAX;
  d_max := fmax;
  d_add := PrimFloat.add;
  d_sub := PrimFloat.sub;
  d_mul := PrimFloat.mul;
  d_div := PrimFloat.div;
  d_exp := exp_double
|}.

(** What is used of the library's [exp]: below -1000, where the exponential
    is far smaller than the smallest positive [double], it returns 0; and
    [exp(0)] is 1. *)
Definition exp_underflows (exp_double : float -> float) : Prop :=
  forall x, PrimFloat.ltb x (-1000)%float = true -> exp_double x = 0%float.

Definition exp_of_zero (exp_double : float -> float) : Prop :=
  exp_double 0%float = 1%float.

(** A function with these two properties, to show that they can be had. *)
Definition exp_flushed (x : float) : float :=
  if PrimFloat.ltb x (-1000)%float then 0%float else 1%float.

(** A one-element tensor and its output blob. *)
Definition unit_bottom : Blob :=
  {| data_ := 1; diff_ := 2; num := 1; channels := 1; height := 1; width := 1 |}.

Definition unit_top : Blob :=
  {| data_ := 3; diff_ := 4; num := 1; channels := 1; height := 1; width := 1 |}.

(** [-2^130] as a [double], a store holding it everywhere, and the store
    shifted by [2^130]. *)
Definition double_below_single : float := (-0x1p130)%float.

Definition double_below_mem : mem float := fun _ _ => double_below_single.

Definition double_shifted_mem : mem float :=
  fun p i => PrimFloat.add (double_below_mem p i) (0x1p130)%float.

(** The image [0.0, -1001.0] of two channels. *)
Definition double_underflow_mem : mem float :=
  fun p i => if p =? 1 then (if i =? 0 then 0%float else (-1001)%float)
             else 0%float.

Definition idle_program_double : @GreenteaProgram float :=
  {| greentea_copy := fun _ _ _ m => m;
     oclk_channel_max := fun _ _ _ _ _ m => m;
     oclk_channel_subtract := fun _ _ _ _ _ _ m => m;
     oclk_exp := fun _ _ _ m => m;
     oclk_channel_sum := fun _ _ _ _ _ m => m;
     oclk_channel_div := fun _ _ _ _ _ _ m => m |}.

(** A cell that the workers before worker [i] have not written: it is in
    another buffer, or it is cell [i] itself. *)
Ltac unwritten H :=
  apply H;
  first [ left; congruence | right; right; apply Z.le_refl ].

(** * Facts about the store and the loops *)

Section KernelFacts.

Context {Dtype : Type} {ops : DtypeOps Dtype}.

Lemma store_same (m : mem Dtype) p i v : store m p i v p i = v.
Proof. unfold store. now rewrite !Z.eqb_refl. Qed.

Lemma store_other (m : mem Dtype) p i v q j :
  q <> p \/ j <> i -> store m p i v q j = m q j.
Proof.
  intros H. unfold store.
  destruct (Z.eqb_spec q p), (Z.eqb_spec j i); simpl; try reflexivity.
  exfalso. destruct H; congruence.
Qed.

Lemma loop_upto_ext {A : Type} (k : nat) (f g : Z -> A -> A) (a : A) :
  (forall c acc, 0 <= c < Z.of_nat k -> f c acc = g c acc) ->
  loop_upto k f a = loop_upto k g a.
Proof.
  induction k as [|k IH]; intros H; simpl; [reflexivity|].
  rewrite IH by (intros; apply H; lia).
  apply H. lia.
Qed.

Lemma for_int_ext {A : Type} (bound : Z) (f g : Z -> A -> A) (a : A) :
  (forall c acc, 0 <= c < bound -> f c acc = g c acc) ->
  for_int bound f a = for_int bound g a.
Proof.
  intros H. unfold for_int. apply loop_upto_ext. intros. apply H. lia.
Qed.

(** A loop whose worker [i] stores [f i] at [out[i]], where [f i] does not
    look at what the workers before it have written, leaves [f i] of the
    initial store at [out[i]] and nothing else changed. *)
Lemma loop_store_spec (out : ptr) (f : Z -> mem Dtype -> Dtype)
    (m : mem Dtype) (k : nat) :
  (forall i m1, 0 <= i < Z.of_nat k ->
     (forall p j, p <> out \/ j < 0 \/ i <= j -> m1 p j = m p j) ->
     f i m1 = f i m) ->
  (forall i, 0 <= i < Z.of_nat k ->
     loop_upto k (fun i m => store m out i (f i m)) m out i = f i m) /\
  (forall p j, p <> out \/ j < 0 \/ Z.of_nat k <= j ->
     loop_upto k (fun i m => store m out i (f i m)) m p j = m p j).
Proof.
  induction k as [|k IH]; intros Hf.
  - split; [lia | reflexivity].
  - destruct IH as [IHv IHf]; [intros; apply Hf; [lia | assumption]|].
    cbn [loop_upto]. split.
    + intros i Hi. destruct (Z.eq_dec i (Z.of_nat k)) as [->|Hne].
      * rewrite store_same. apply Hf; [lia|].
        intros p j Hpj. apply IHf. lia.
      * rewrite store_other by (right; assumption). apply IHv. lia.
    + intros p j Hpj. rewrite store_other by lia. apply IHf. lia.
Qed.

Lemma kernel_loop_spec (bound : Z) (out : ptr) (f : Z -> mem Dtype -> Dtype)
    (m : mem Dtype) :
  (forall i m1, 0 <= i < bound ->
     (forall p j, p <> out \/ j < 0 \/ i <= j -> m1 p j = m p j) ->
     f i m1 = f i m) ->
  (forall i, 0 <= i < bound ->
     CUDA_KERNEL_LOOP bound (fun i m => store m out i (f i m)) m out i
     = f i m) /\
  (forall p j, p <> out \/ j < 0 \/ bound <= j ->
     CUDA_KERNEL_LOOP bound (fun i m => store m out i (f i m)) m p j = m p j).
Proof.
  intros Hf. unfold CUDA_KERNEL_LOOP, for_int.
  destruct (loop_store_spec out f m (Z.to_nat bound)) as [Hv Hfr].
  - intros; apply Hf; [lia | assumption].
  - split; intros; [apply Hv | apply Hfr]; lia.
Qed.

(** ** Index arithmetic *)

Lemma linear_index_range C S N n c s :
  0 <= n < N -> 0 <= c < C -> 0 <= s < S ->
  0 <= linear_index C S n c s < N * C * S.
Proof.
  unfold linear_index. intros Hn Hc Hs.
  assert (0 <= n * C + c <= N * C - 1) by nia.
  split; nia.
Qed.

Lemma linear_index_quot C S n c s :
  0 <= n -> 0 <= c < C -> 0 <= s < S ->
  linear_index C S n c s ÷ C ÷ S = n.
Proof.
  intros Hn Hc Hs. unfold linear_index.
  assert (0 <= n * C + c) by nia.
  assert (0 <= (n * C + c) * S + s) by nia.
  assert (0 < C * S) by nia.
  assert (0 <= c * S + s < C * S) by nia.
  rewrite Z.quot_quot by lia.
  rewrite Z.quot_div_nonneg by lia.
  symmetry. apply (Z.div_unique _ _ n (c * S + s)); [lia | ring].
Qed.

Lemma linear_index_rem C S n c s :
  0 <= n -> 0 <= c < C -> 0 <= s < S ->
  Z.rem (linear_index C S n c s) S = s.
Proof.
  intros Hn Hc Hs. unfold linear_index.
  assert (0 <= n * C + c) by nia.
  assert (0 <= (n * C + c) * S + s) by nia.
  rewrite Z.rem_mod_nonneg by lia.
  symmetry. apply (Z.mod_unique _ _ (n * C + c) s); [lia | ring].
Qed.

Lemma quot_quot_mul i C S :
  0 <= i -> 0 < C -> 0 < S -> i ÷ C ÷ S = i / (C * S).
Proof.
  intros. rewrite Z.quot_quot by lia. apply Z.quot_div_nonneg; nia.
Qed.

Lemma group_index_range S N n s :
  0 <= n < N -> 0 <= s < S -> 0 <= group_index S n s < N * S.
Proof. unfold group_index. intros. nia. Qed.

Lemma group_index_quot S n s :
  0 <= n -> 0 <= s < S -> group_index S n s ÷ S = n.
Proof.
  intros. unfold group_index.
  assert (0 <= n * S + s) by nia.
  rewrite Z.quot_div_nonneg by lia.
  symmetry. apply (Z.div_unique _ _ n s); [lia | ring].
Qed.

Lemma group_index_rem S n s :
  0 <= n -> 0 <= s < S -> Z.rem (group_index S n s) S = s.
Proof.
  intros. unfold group_index.
  assert (0 <= n * S + s) by nia.
  rewrite Z.rem_mod_nonneg by lia.
  symmetry. apply (Z.mod_unique _ _ n s); [lia | ring].
Qed.

(** Every linear index below [N * C * S] is the index of one element
    (n, c, s). *)
Lemma linear_index_decompose C S N i :
  0 < C -> 0 < S -> 0 <= i < N * C * S ->
  exists n c s, 0 <= n < N /\ 0 <= c < C /\ 0 <= s < S /\
                i = linear_index C S n c s.
Proof.
  intros HC HS Hi.
  exists (i / S / C), ((i / S) mod C), (i mod S).
  pose proof (Z.div_mod i S ltac:(lia)) as E1.
  pose proof (Z.div_mod (i / S) C ltac:(lia)) as E2.
  pose proof (Z.mod_pos_bound i S HS) as B1.
  pose proof (Z.mod_pos_bound (i / S) C HC) as B2.
  assert (0 <= i / S) by (apply Z.div_pos; lia).
  assert (0 <= i / S / C) by (apply Z.div_pos; lia).
  assert (i / S < N * C) by (apply Z.div_lt_upper_bound; nia).
  assert (i / S / C < N) by (apply Z.div_lt_upper_bound; nia).
  unfold linear_index. repeat split; try lia.
Qed.

(** ** What each kernel leaves in the store *)

Lemma caffe_copy_spec N X Y (m : mem Dtype) :
  (forall i, 0 <= i < N -> caffe_copy N X Y m Y i = m X i) /\
  (forall p j, p <> Y \/ j < 0 \/ N <= j -> caffe_copy N X Y m p j = m p j).
Proof.
  apply (kernel_loop_spec N Y (fun i m => m X i)).
  intros i m1 _ H. destruct (Z.eq_dec X Y); unwritten H.
Qed.

Lemma caffe_gpu_mul_spec N a b y (m : mem Dtype) :
  (forall i, 0 <= i < N ->
     caffe_gpu_mul N a b y m y i = d_mul (m a i) (m b i)) /\
  (forall p j, p <> y \/ j < 0 \/ N <= j ->
     caffe_gpu_mul N a b y m p j = m p j).
Proof.
  apply (kernel_loop_spec N y (fun i m => d_mul (m a i) (m b i))).
  intros i m1 _ H. f_equal.
  - destruct (Z.eq_dec a y); unwritten H.
  - destruct (Z.eq_dec b y); unwritten H.
Qed.

Lemma kernel_channel_max_spec N C S data out (m : mem Dtype) :
  data <> out ->
  (forall g, 0 <= g < N * S ->
     kernel_channel_max N C S data out m out g
     = scan_max C (fun c => m data ((g ÷ S * C + c) * S + Z.rem g S))) /\
  (forall p j, p <> out \/ j < 0 \/ N * S <= j ->
     kernel_channel_max N C S data out m p j = m p j).
Proof.
  intros Hne.
  apply (kernel_loop_spec (N * S) out
           (fun g m => scan_max C
              (fun c => m data ((g ÷ S * C + c) * S + Z.rem g S)))).
  intros g m1 _ H. apply for_int_ext. intros c acc _.
  f_equal. unwritten H.
Qed.

Lemma kernel_channel_sum_spec N C S data out (m : mem Dtype) :
  data <> out ->
  (forall g, 0 <= g < N * S ->
     kernel_channel_sum N C S data out m out g
     = scan_sum C (fun c => m data ((g ÷ S * C + c) * S + Z.rem g S))) /\
  (forall p j, p <> out \/ j < 0 \/ N * S <= j ->
     kernel_channel_sum N C S data out m p j = m p j).
Proof.
  intros Hne.
  apply (kernel_loop_spec (N * S) out
           (fun g m => scan_sum C
              (fun c => m data ((g ÷ S * C + c) * S + Z.rem g S)))).
  intros g m1 _ H. apply for_int_ext. intros c acc _.
  f_equal. unwritten H.
Qed.

Lemma kernel_channel_dot_spec N C S data_1 data_2 out (m : mem Dtype) :
  data_1 <> out -> data_2 <> out ->
  (forall g, 0 <= g < N * S ->
     kernel_channel_dot N C S data_1 data_2 out m out g
     = scan_sum C (fun c =>
         d_mul (m data_1 ((g ÷ S * C + c) * S + Z.rem g S))
               (m data_2 ((g ÷ S * C + c) * S + Z.rem g S)))) /\
  (forall p j, p <> out \/ j < 0 \/ N * S <= j ->
     kernel_channel_dot N C S data_1 data_2 out m p j = m p j).
Proof.
  intros Hne1 Hne2.
  apply (kernel_loop_spec (N * S) out
           (fun g m => scan_sum C (fun c =>
              d_mul (m data_1 ((g ÷ S * C + c) * S + Z.rem g S))
                    (m data_2 ((g ÷ S * C + c) * S + Z.rem g S))))).
  intros g m1 _ H. apply for_int_ext. intros c acc _.
  f_equal. f_equal; unwritten H.
Qed.

Lemma kernel_channel_subtract_spec cnt N C S scalar data (m : mem Dtype) :
  scalar <> data ->
  (forall i, 0 <= i < cnt ->
     kernel_channel_subtract cnt N C S scalar data m data i
     = d_sub (m data i) (m scalar (i ÷ C ÷ S * S + Z.rem i S))) /\
  (forall p j, p <> data \/ j < 0 \/ cnt <= j ->
     kernel_channel_subtract cnt N C S scalar data m p j = m p j).
Proof.
  intros Hne.
  apply (kernel_loop_spec cnt data
           (fun i m => d_sub (m data i) (m scalar (i ÷ C ÷ S * S + Z.rem i S)))).
  intros i m1 _ H. f_equal; unwritten H.
Qed.

Lemma kernel_channel_div_spec cnt N C S scalar data (m : mem Dtype) :
  scalar <> data ->
  (forall i, 0 <= i < cnt ->
     kernel_channel_div cnt N C S scalar data m data i
     = d_div (m data i) (m scalar (i ÷ C ÷ S * S + Z.rem i S))) /\
  (forall p j, p <> data \/ j < 0 \/ cnt <= j ->
     kernel_channel_div cnt N C S scalar data m p j = m p j).
Proof.
  intros Hne.
  apply (kernel_loop_spec cnt data
           (fun i m => d_div (m data i) (m scalar (i ÷ C ÷ S * S + Z.rem i S)))).
  intros i m1 _ H. f_equal; unwritten H.
Qed.

Lemma kernel_exp_spec cnt data out (m : mem Dtype) :
  (forall i, 0 <= i < cnt -> kernel_exp cnt data out m out i = d_exp (m data i)) /\
  (forall p j, p <> out \/ j < 0 \/ cnt <= j ->
     kernel_exp cnt data out m p j = m p j).
Proof.
  apply (kernel_loop_spec cnt out (fun i m => d_exp (m data i))).
  intros i m1 _ H. f_equal. destruct (Z.eq_dec data out); unwritten H.
Qed.

Lemma scan_max_ext C (x y : Z -> Dtype) :
  (forall c, 0 <= c < C -> x c = y c) -> scan_max C x = scan_max C y.
Proof.
  intros H. apply for_int_ext. intros c acc Hc. now rewrite H.
Qed.

Lemma scan_sum_ext C (x y : Z -> Dtype) :
  (forall c, 0 <= c < C -> x c = y c) -> scan_sum C x = scan_sum C y.
Proof.
  intros H. apply for_int_ext. intros c acc Hc. now rewrite H.
Qed.

(** The cell of the scratch buffer a broadcast kernel reads at the index of
    element (n, c, s) is the cell of group (n, s). *)
Lemma broadcast_cell C S n c s :
  0 <= n -> 0 <= c < C -> 0 <= s < S ->
  linear_index C S n c s ÷ C ÷ S * S + Z.rem (linear_index C S n c s) S
  = group_index S n s.
Proof.
  intros. now rewrite linear_index_quot, linear_index_rem.
Qed.

(** The element a reduction kernel reads for channel [c] at the index of
    group (n, s) is element (n, c, s). *)
Lemma reduction_cell C S n c s :
  0 <= n -> 0 <= s < S ->
  (group_index S n s ÷ S * C + c) * S + Z.rem (group_index S n s) S
  = linear_index C S n c s.
Proof.
  intros. now rewrite group_index_quot, group_index_rem.
Qed.

(** ** The forward pipeline, stage by stage *)

Section Forward.

Variables (cnt N C S : Z) (bottom_data top_data scale_data : ptr).
Variable m : mem Dtype.
Hypothesis Hcnt : cnt = N * C * S.
Hypothesis Hdistinct : top_data <> scale_data.

(** Channel [c] of group (n, s) of the input as it is on entry. *)
Let x (n s c : Z) : Dtype := m bottom_data (linear_index C S n c s).

Lemma forward_cuda_subtracted_at n c s :
  0 <= n < N -> 0 <= c < C -> 0 <= s < S ->
  forward_cuda_subtracted cnt N C S bottom_data top_data scale_data m
    top_data (linear_index C S n c s)
  = d_sub (x n s c) (scan_max C (x n s)).
Proof.
  intros Hn Hc Hs. unfold forward_cuda_subtracted.
  set (m1 := caffe_copy cnt bottom_data top_data m).
  set (m2 := kernel_channel_max N C S top_data scale_data m1).
  destruct (caffe_copy_spec cnt bottom_data top_data m) as [C1 _].
  destruct (kernel_channel_max_spec N C S top_data scale_data m1 Hdistinct)
    as [M1 M2].
  destruct (kernel_channel_subtract_spec cnt N C S scale_data top_data m2
              (not_eq_sym Hdistinct)) as [S1 _].
  pose proof (linear_index_range C S N n c s Hn Hc Hs) as Hi.
  rewrite S1 by lia.
  rewrite broadcast_cell by lia.
  unfold m2 at 1. rewrite M2 by (left; assumption).
  unfold m2. rewrite M1 by (apply group_index_range; lia).
  unfold m1 at 1. rewrite C1 by lia.
  f_equal. apply scan_max_ext. intros c' Hc'.
  rewrite reduction_cell by lia.
  unfold m1. rewrite C1; [reflexivity|].
  pose proof (linear_index_range C S N n c' s Hn Hc' Hs). lia.
Qed.

Lemma forward_cuda_summed_at n c s :
  0 <= n < N -> 0 <= c < C -> 0 <= s < S ->
  forward_cuda_summed cnt N C S bottom_data top_data scale_data m
    top_data (linear_index C S n c s)
  = d_exp (d_sub (x n s c) (scan_max C (x n s))).
Proof.
  intros Hn Hc Hs. unfold forward_cuda_summed.
  set (m3 := forward_cuda_subtracted cnt N C S bottom_data top_data
               scale_data m).
  set (m4 := kernel_exp (N * C * S) top_data top_data m3).
  destruct (kernel_exp_spec (N * C * S) top_data top_data m3) as [E1 _].
  destruct (kernel_channel_sum_spec N C S top_data scale_data m4 Hdistinct)
    as [_ F].
  pose proof (linear_index_range C S N n c s Hn Hc Hs) as Hi.
  rewrite F by (left; assumption).
  unfold m4. rewrite E1 by lia.
  unfold m3. now rewrite forward_cuda_subtracted_at.
Qed.

Lemma forward_cuda_summed_scale n s :
  0 <= n < N -> 0 <= s < S ->
  forward_cuda_summed cnt N C S bottom_data top_data scale_data m
    scale_data (group_index S n s)
  = scan_sum C (fun c => d_exp (d_sub (x n s c) (scan_max C (x n s)))).
Proof.
  intros Hn Hs. unfold forward_cuda_summed.
  set (m3 := forward_cuda_subtracted cnt N C S bottom_data top_data
               scale_data m).
  set (m4 := kernel_exp (N * C * S) top_data top_data m3).
  destruct (kernel_exp_spec (N * C * S) top_data top_data m3) as [E1 _].
  destruct (kernel_channel_sum_spec N C S top_data scale_data m4 Hdistinct)
    as [V _].
  rewrite V by (apply group_index_range; lia).
  apply scan_sum_ext. intros c Hc.
  rewrite reduction_cell by lia.
  pose proof (linear_index_range C S N n c s Hn Hc Hs) as Hi.
  unfold m4. rewrite E1 by lia.
  unfold m3. now rewrite forward_cuda_subtracted_at.
Qed.

Lemma forward_cuda_divided_at n c s :
  0 <= n < N -> 0 <= c < C -> 0 <= s < S ->
  kernel_channel_div cnt N C S scale_data top_data
    (forward_cuda_summed cnt N C S bottom_data top_data scale_data m)
    top_data (linear_index C S n c s)
  = d_div (d_exp (d_sub (x n s c) (scan_max C (x n s))))
          (scan_sum C
             (fun c' => d_exp (d_sub (x n s c') (scan_max C (x n s))))).
Proof.
  intros Hn Hc Hs.
  set (m5 := forward_cuda_summed cnt N C S bottom_data top_data scale_data m).
  destruct (kernel_channel_div_spec cnt N C S scale_data top_data m5
              (not_eq_sym Hdistinct)) as [D1 _].
  pose proof (linear_index_range C S N n c s Hn Hc Hs) as Hi.
  rewrite D1 by lia.
  rewrite broadcast_cell by lia.
  unfold m5. now rewrite forward_cuda_summed_at, forward_cuda_summed_scale.
Qed.

End Forward.

(** Every kernel of the CUDA branch writes [top_data] or [scale_data] only. *)
Lemma forward_cuda_frame cnt N C S bottom_data top_data scale_data
    (m : mem Dtype) p j :
  p <> top_data -> p <> scale_data ->
  kernel_channel_div cnt N C S scale_data top_data
    (forward_cuda_summed cnt N C S bottom_data top_data scale_data m) p j
  = m p j.
Proof.
  intros Ht Hs. unfold forward_cuda_summed, forward_cuda_subtracted.
  destruct (Z.eq_dec top_data scale_data) as [E|Hd].
  - (* the scratch buffer is the output buffer: still the only one written *)
    subst scale_data.
    unfold kernel_channel_div, kernel_channel_sum, kernel_exp,
      kernel_channel_subtract, kernel_channel_max, caffe_copy,
      CUDA_KERNEL_LOOP, for_int.
    repeat match goal with
    | |- loop_upto ?k ?body ?m0 p j = _ =>
        let H := fresh in
        assert (H : forall k' m', loop_upto k' body m' p j = m' p j)
          by (intros k' m'; induction k' as [|k' IH]; cbn [loop_upto];
              [reflexivity | rewrite store_other by (left; assumption);
                             exact IH]);
        rewrite H; clear H
    end.
    reflexivity.
  - rewrite (proj2 (kernel_channel_div_spec _ _ _ _ _ _ _ (not_eq_sym Hd)))
      by (left; assumption).
    rewrite (proj2 (kernel_channel_sum_spec _ _ _ _ _ _ Hd))
      by (left; assumption).
    rewrite (proj2 (kernel_exp_spec _ _ _ _)) by (left; assumption).
    rewrite (proj2 (kernel_channel_subtract_spec _ _ _ _ _ _ _ (not_eq_sym Hd)))
      by (left; assumption).
    rewrite (proj2 (kernel_channel_max_spec _ _ _ _ _ _ Hd))
      by (left; assumption).
    rewrite (proj2 (caffe_copy_spec _ _ _ _)) by (left; assumption).
    reflexivity.
Qed.

(** ** The backward pipeline *)

Section Backward.

Variables (cnt N C S : Z) (top_diff top_data bottom_diff scale_data : ptr).
Variable m : mem Dtype.
Hypothesis Hcnt : cnt = N * C * S.
Hypothesis Hscale_diff : scale_data <> top_diff.
Hypothesis Hscale_data : scale_data <> top_data.
Hypothesis Hscale_bottom : scale_data <> bottom_diff.
Hypothesis Hdata_bottom : top_data <> bottom_diff.

(** After the copy the gradient is still where the dot product reads it,
    whether or not the copy was onto itself. *)
Lemma backward_copy_keeps_top_diff i :
  0 <= i < cnt -> caffe_copy cnt top_diff bottom_diff m top_diff i = m top_diff i.
Proof.
  intros Hi. destruct (caffe_copy_spec cnt top_diff bottom_diff m) as [V F].
  destruct (Z.eq_dec top_diff bottom_diff) as [E|E].
  - rewrite E at 2. rewrite V by assumption. reflexivity.
  - apply F. left. assumption.
Qed.

Lemma backward_at n c s :
  0 <= n < N -> 0 <= c < C -> 0 <= s < S ->
  caffe_gpu_mul cnt bottom_diff top_data bottom_diff
    (kernel_channel_subtract cnt N C S scale_data bottom_diff
       (kernel_channel_dot N C S top_diff top_data scale_data
          (caffe_copy cnt top_diff bottom_diff m)))
    bottom_diff (linear_index C S n c s)
  = d_mul
      (d_sub (m top_diff (linear_index C S n c s))
         (scan_sum C (fun c' =>
            d_mul (m top_diff (linear_index C S n c' s))
                  (m top_data (linear_index C S n c' s)))))
      (m top_data (linear_index C S n c s)).
Proof.
  intros Hn Hc Hs.
  set (m1 := caffe_copy cnt top_diff bottom_diff m).
  set (m2 := kernel_channel_dot N C S top_diff top_data scale_data m1).
  set (m3 := kernel_channel_subtract cnt N C S scale_data bottom_diff m2).
  destruct (caffe_copy_spec cnt top_diff bottom_diff m) as [C1 C2].
  destruct (kernel_channel_dot_spec N C S top_diff top_data scale_data m1
              (not_eq_sym Hscale_diff) (not_eq_sym Hscale_data)) as [D1 D2].
  destruct (kernel_channel_subtract_spec cnt N C S scale_data bottom_diff m2
              Hscale_bottom) as [S1 S2].
  destruct (caffe_gpu_mul_spec cnt bottom_diff top_data bottom_diff m3)
    as [M1 _].
  pose proof (linear_index_range C S N n c s Hn Hc Hs) as Hi.
  assert (Hdata : forall j, m3 top_data j = m top_data j).
  { intros j. unfold m3. rewrite S2 by (left; assumption).
    unfold m2. rewrite D2 by (left; congruence).
    unfold m1. apply C2. left. assumption. }
  rewrite M1 by lia. rewrite Hdata. f_equal.
  unfold m3. rewrite S1 by lia. rewrite broadcast_cell by lia.
  unfold m2 at 1. rewrite D2 by (left; congruence).
  unfold m1 at 1. rewrite C1 by lia. f_equal.
  unfold m2. rewrite D1 by (apply group_index_range; lia).
  apply scan_sum_ext. intros c' Hc'.
  rewrite reduction_cell by lia.
  pose proof (linear_index_range C S N n c' s Hn Hc' Hs) as Hi'.
  unfold m1. rewrite backward_copy_keeps_top_diff by lia.
  rewrite C2 by (left; assumption). reflexivity.
Qed.

End Backward.

End KernelFacts.

(** * Exact arithmetic: sums, maxima and the softmax quotient *)

Section ExactFacts.

Local Open Scope R_scope.

Lemma sum_upto_ext k (f g : Z -> R) :
  (forall c, (0 <= c < Z.of_nat k)%Z -> f c = g c) ->
  sum_upto k f = sum_upto k g.
Proof.
  induction k as [|k IH]; intros H; simpl; [reflexivity|].
  rewrite IH by (intros; apply H; lia). rewrite H by lia. reflexivity.
Qed.

Lemma sum_c_ext C (f g : Z -> R) :
  (forall c, (0 <= c < C)%Z -> f c = g c) -> sum_c C f = sum_c C g.
Proof.
  intros H. apply sum_upto_ext. intros. apply H. lia.
Qed.

Lemma sum_c_scale C a (f : Z -> R) :
  sum_c C (fun c => a * f c) = a * sum_c C f.
Proof.
  unfold sum_c. induction (Z.to_nat C) as [|k IH]; simpl; [ring|].
  rewrite IH. ring.
Qed.

Lemma sum_upto_nonneg k (f : Z -> R) :
  (forall c, (0 <= c < Z.of_nat k)%Z -> 0 <= f c) -> 0 <= sum_upto k f.
Proof.
  induction k as [|k IH]; intros H; simpl; [lra|].
  assert (0 <= sum_upto k f) by (apply IH; intros; apply H; lia).
  assert (0 <= f (Z.of_nat k)) by (apply H; lia). lra.
Qed.

Lemma sum_upto_term_le k (f : Z -> R) c :
  (forall c, (0 <= c < Z.of_nat k)%Z -> 0 <= f c) ->
  (0 <= c < Z.of_nat k)%Z -> f c <= sum_upto k f.
Proof.
  induction k as [|k IH]; intros H Hc; [lia|]. simpl.
  assert (0 <= sum_upto k f)
    by (apply sum_upto_nonneg; intros; apply H; lia).
  assert (0 <= f (Z.of_nat k)) by (apply H; lia).
  destruct (Z.eq_dec c (Z.of_nat k)) as [->|Hne]; [lra|].
  assert (f c <= sum_upto k f) by (apply IH; [intros; apply H|]; lia).
  lra.
Qed.

Lemma sum_c_term_le C (f : Z -> R) c :
  (forall c, (0 <= c < C)%Z -> 0 <= f c) ->
  (0 <= c < C)%Z -> f c <= sum_c C f.
Proof.
  intros H Hc. apply sum_upto_term_le; [intros; apply H|]; lia.
Qed.

Lemma sum_c_pos C (f : Z -> R) :
  (1 <= C)%Z -> (forall c, (0 <= c < C)%Z -> 0 < f c) -> 0 < sum_c C f.
Proof.
  intros HC H.
  assert (f 0%Z <= sum_c C f)
    by (apply sum_c_term_le; [intros; apply Rlt_le, H|]; lia).
  assert (0 < f 0%Z) by (apply H; lia). lra.
Qed.

Lemma scan_sum_sum_c C (x : Z -> R) : scan_sum C x = sum_c C x.
Proof.
  unfold scan_sum, sum_c, for_int.
  induction (Z.to_nat C) as [|k IH]; cbn [loop_upto sum_upto];
    [reflexivity|].
  now rewrite IH.
Qed.

(** The scan of the max kernel bounds every channel from above ... *)
Lemma scan_max_upper C (x : Z -> R) c :
  (0 <= c < C)%Z -> x c <= scan_max C x.
Proof.
  unfold scan_max, for_int. intros Hc.
  assert (Hk : (0 <= c < Z.of_nat (Z.to_nat C))%Z) by lia.
  revert Hk. generalize (Z.to_nat C) as k.
  induction k as [|k IH]; intros Hk; [lia|]. simpl.
  destruct (Z.eq_dec c (Z.of_nat k)) as [->|Hne].
  - apply Rmax_l.
  - eapply Rle_trans; [apply IH; lia | apply Rmax_r].
Qed.

(** ... and never goes below its initial value. *)
Lemma scan_max_lower C (x : Z -> R) : - FLT_MAX <= scan_max C x.
Proof.
  unfold scan_max, for_int.
  induction (Z.to_nat C) as [|k IH]; simpl; [lra|].
  eapply Rle_trans; [exact IH | apply Rmax_r].
Qed.

Lemma max_upto_is_max k (x : Z -> R) :
  (exists c, (0 <= c <= Z.of_nat k)%Z /\ max_upto k x = x c) /\
  (forall c, (0 <= c <= Z.of_nat k)%Z -> x c <= max_upto k x).
Proof.
  induction k as [|k [[c0 [Hc0 E]] IH]].
  - split; [exists 0%Z; split; [lia | reflexivity]|].
    intros c Hc. simpl. replace c with 0%Z by lia. lra.
  - cbn [max_upto]. split.
    + destruct (Rmax_case (max_upto k x) (x (Z.of_nat (S k)))
                  (fun r => r = max_upto k x \/ r = x (Z.of_nat (S k))))
        as [H|H]; [now left | now right | |].
      * exists c0. split; [lia | congruence].
      * exists (Z.of_nat (S k)). split; [lia | assumption].
    + intros c Hc. destruct (Z.eq_dec c (Z.of_nat (S k))) as [->|Hne].
      * apply Rmax_r.
      * eapply Rle_trans; [apply IH; lia | apply Rmax_l].
Qed.

(** [max_c] is the maximum over the channels. *)
Lemma max_c_is_max C (x : Z -> R) :
  (1 <= C)%Z -> is_max_c C x (max_c C x).
Proof.
  intros HC. unfold is_max_c, max_c.
  destruct (max_upto_is_max (Z.to_nat (C - 1)) x) as [[c [Hc E]] U].
  split.
  - exists c. split; [lia | assumption].
  - intros c' Hc'. apply U. lia.
Qed.

(** The scan of the max kernel is the channel maximum clamped from below at
    [-FLT_MAX]. *)
Lemma scan_max_clamped C (x : Z -> R) :
  (1 <= C)%Z -> scan_max C x = Rmax (max_c C x) (- FLT_MAX).
Proof.
  intros HC. unfold scan_max, max_c, for_int.
  replace (Z.to_nat C) with (S (Z.to_nat (C - 1))) by lia.
  induction (Z.to_nat (C - 1)) as [|k IH].
  - reflexivity.
  - change (loop_upto (S (S k)) ?f ?a)
      with (f (Z.of_nat (S k)) (loop_upto (S k) f a)).
    cbv beta. rewrite IH. cbn [max_upto d_max R_ops d_neg_FLT_MAX].
    rewrite (Rmax_comm (max_upto k x) (x (Z.of_nat (S k)))).
    now rewrite Rmax_assoc.
Qed.

(** Where some channel is at least [-FLT_MAX], as every finite single
    precision value is, the scan is the channel maximum. *)
Lemma scan_max_is_max_c C (x : Z -> R) :
  (1 <= C)%Z -> (exists c, (0 <= c < C)%Z /\ - FLT_MAX <= x c) ->
  scan_max C x = max_c C x.
Proof.
  intros HC [c [Hc Hx]]. rewrite scan_max_clamped by assumption.
  apply Rmax_left.
  destruct (max_c_is_max C x HC) as [_ U].
  eapply Rle_trans; [exact Hx | apply U; assumption].
Qed.

(** ** The softmax quotient *)

Lemma softmax_at_denominator_pos C (x : Z -> R) a :
  (1 <= C)%Z -> 0 < sum_c C (fun c' => exp (x c' - a)).
Proof.
  intros HC. apply sum_c_pos; [assumption|]. intros. apply exp_pos.
Qed.

Lemma softmax_at_bounds C (x : Z -> R) a c :
  (0 <= c < C)%Z -> 0 < softmax_at C x a c <= 1.
Proof.
  intros Hc. unfold softmax_at.
  pose proof (softmax_at_denominator_pos C x a ltac:(lia)) as Hpos.
  pose proof (exp_pos (x c - a)) as He.
  assert (Hle : exp (x c - a) <= sum_c C (fun c' => exp (x c' - a))).
  { apply (sum_c_term_le C (fun c' => exp (x c' - a)));
      [intros; apply Rlt_le, exp_pos | assumption]. }
  split.
  - apply Rdiv_lt_0_compat; assumption.
  - apply (Rmult_le_reg_r (sum_c C (fun c' => exp (x c' - a))));
      [assumption|].
    unfold Rdiv. rewrite Rmult_assoc, Rinv_l by lra. lra.
Qed.

End ExactFacts.

(** * The layer, for every element type *)

Section LayerFacts.

Context {Dtype : Type} {ops : DtypeOps Dtype}.

Lemma count_eq (b : Blob) :
  count b = num b * channels b * (height b * width b).
Proof. unfold count. ring. Qed.

(** On the CUDA backend the forward pass is the six calls in the order of the
    source. *)
Lemma Forward_gpu_cuda_eq use_greentea (program : GreenteaProgram)
    (this : SoftmaxLayer) bottom0 bottom top0 top (m : mem Dtype) :
  device_context_backend this = BACKEND_CUDA ->
  Forward_gpu use_greentea program this (bottom0 :: bottom) (top0 :: top) m
  = Some
      (kernel_channel_div (count bottom0) (num bottom0) (channels bottom0)
         (height bottom0 * width bottom0)
         (mutable_gpu_data (scale_ this)) (mutable_gpu_data top0)
         (kernel_channel_sum (num bottom0) (channels bottom0)
            (height bottom0 * width bottom0)
            (mutable_gpu_data top0) (mutable_gpu_data (scale_ this))
            (kernel_exp
               (num bottom0 * channels bottom0
                * (height bottom0 * width bottom0))
               (mutable_gpu_data top0) (mutable_gpu_data top0)
               (kernel_channel_subtract (count bottom0) (num bottom0)
                  (channels bottom0) (height bottom0 * width bottom0)
                  (mutable_gpu_data (scale_ this)) (mutable_gpu_data top0)
                  (kernel_channel_max (num bottom0) (channels bottom0)
                     (height bottom0 * width bottom0)
                     (mutable_gpu_data top0)
                     (mutable_gpu_data (scale_ this))
                     (caffe_copy (count bottom0) (gpu_data bottom0)
                        (mutable_gpu_data top0) m)))))).
Proof.
  intros Hb. unfold Forward_gpu. rewrite Hb. reflexivity.
Qed.

(** C8.  Broadcast index decomposition: at every linear index [i] below
    [count = num * channels * spatial_dim] the broadcast-subtract kernel
    leaves [data[i] - scalar[n * spatial_dim + s]] with
    [n = i / (channels * spatial_dim)] and [s = i mod spatial_dim];
    equivalently element (n, c, s) has the scalar of its own group (n, s)
    subtracted, whatever [c] is. *)
Theorem kernel_channel_subtract_broadcast N C S scalar data (m : mem Dtype) :
  scalar <> data -> 1 <= C -> 1 <= S ->
  (forall i, 0 <= i < N * C * S ->
     kernel_channel_subtract (N * C * S) N C S scalar data m data i
     = d_sub (m data i) (m scalar (i / (C * S) * S + i mod S))) /\
  (forall n c s, 0 <= n < N -> 0 <= c < C -> 0 <= s < S ->
     kernel_channel_subtract (N * C * S) N C S scalar data m data
       (linear_index C S n c s)
     = d_sub (m data (linear_index C S n c s))
             (m scalar (group_index S n s))).
Proof.
  intros Hne HC HS.
  destruct (kernel_channel_subtract_spec (N * C * S) N C S scalar data m Hne)
    as [V _].
  split.
  - intros i Hi. rewrite V by assumption.
    rewrite quot_quot_mul by lia.
    rewrite Z.rem_mod_nonneg by lia. reflexivity.
  - intros n c s Hn Hc Hs.
    rewrite V by (apply linear_index_range; assumption).
    rewrite broadcast_cell by lia. reflexivity.
Qed.

(** C9, as amended.  When the bottom data buffer is neither the top data
    buffer nor the scratch buffer, the forward pass on the CUDA backend
    leaves it as it was on entry; every write goes to the top data buffer or
    the scratch buffer. *)
Theorem Forward_gpu_preserves_bottom use_greentea (program : GreenteaProgram)
    (this : SoftmaxLayer) bottom0 bottom top0 top (m : mem Dtype) :
  device_context_backend this = BACKEND_CUDA ->
  gpu_data bottom0 <> mutable_gpu_data top0 ->
  gpu_data bottom0 <> mutable_gpu_data (scale_ this) ->
  exists m',
    Forward_gpu use_greentea program this (bottom0 :: bottom) (top0 :: top) m
    = Some m' /\
    (forall i, m' (gpu_data bottom0) i = m (gpu_data bottom0) i) /\
    (forall p j, p <> mutable_gpu_data top0 ->
                 p <> mutable_gpu_data (scale_ this) -> m' p j = m p j).
Proof.
  intros Hb Ht Hs. eexists. split.
  - unfold Forward_gpu. rewrite Hb. reflexivity.
  - split.
    + intros i. apply forward_cuda_frame; assumption.
    + intros p j Hp1 Hp2. apply forward_cuda_frame; assumption.
Qed.

(** C10.  [Backward_gpu] never looks at [propagate_down]: whatever the flags
    are (all false included) it runs the same four calls, and what it leaves
    in the bottom gradient is a function of the top gradient and the top data
    alone. *)
Theorem Backward_gpu_ignores_propagate_down (this : SoftmaxLayer)
    top0 top bottom0 bottom (m : mem Dtype) :
  mutable_gpu_data (scale_ this) <> gpu_diff top0 ->
  mutable_gpu_data (scale_ this) <> gpu_data top0 ->
  mutable_gpu_data (scale_ this) <> mutable_gpu_diff bottom0 ->
  gpu_data top0 <> mutable_gpu_diff bottom0 ->
  exists m',
    (forall propagate_down,
       Backward_gpu this (top0 :: top) propagate_down (bottom0 :: bottom) m
       = Some m') /\
    m' = caffe_gpu_mul (count top0) (mutable_gpu_diff bottom0)
           (gpu_data top0) (mutable_gpu_diff bottom0)
           (kernel_channel_subtract (count top0) (num top0) (channels top0)
              (height top0 * width top0)
              (mutable_gpu_data (scale_ this)) (mutable_gpu_diff bottom0)
              (kernel_channel_dot (num top0) (channels top0)
                 (height top0 * width top0)
                 (gpu_diff top0) (gpu_data top0)
                 (mutable_gpu_data (scale_ this))
                 (caffe_copy (count top0) (gpu_diff top0)
                    (mutable_gpu_diff bottom0) m))) /\
    (forall n c s,
       0 <= n < num top0 -> 0 <= c < channels top0 ->
       0 <= s < height top0 * width top0 ->
       let i c' :=
         linear_index (channels top0) (height top0 * width top0) n c' s in
       m' (mutable_gpu_diff bottom0) (i c)
       = d_mul
           (d_sub (m (gpu_diff top0) (i c))
              (scan_sum (channels top0) (fun c' =>
                 d_mul (m (gpu_diff top0) (i c')) (m (gpu_data top0) (i c')))))
           (m (gpu_data top0) (i c))).
Proof.
  intros H1 H2 H3 H4. eexists. split; [|split].
  - intros propagate_down. reflexivity.
  - reflexivity.
  - intros n c s Hn Hc Hs i. subst i.
    apply backward_at; try assumption. apply count_eq.
Qed.

End LayerFacts.

(** * The layer in exact arithmetic *)

Section ExactLayer.

Variable use_greentea : bool.
Variable program : @GreenteaProgram R.
Variable this : SoftmaxLayer.
Variables bottom0 top0 : Blob.
Variables bottom top : list Blob.

(** Channel [c] of group (n, s) of the bottom data held in [m]. *)
Local Abbreviation input m n s :=
  (fun c' => at_ncs m (gpu_data bottom0) bottom0 n c' s).

(** What the CUDA branch leaves at element (n, c, s) of the top data: the
    softmax quotient with the scanned maximum as the shift. *)
Lemma forward_exact_at top_data scale_data (m : mem R) n c s :
  top_data <> scale_data ->
  0 <= n < num bottom0 -> 0 <= c < channels bottom0 ->
  0 <= s < height bottom0 * width bottom0 ->
  at_ncs
    (kernel_channel_div (count bottom0) (num bottom0) (channels bottom0)
       (height bottom0 * width bottom0) scale_data top_data
       (forward_cuda_summed (count bottom0) (num bottom0) (channels bottom0)
          (height bottom0 * width bottom0)
          (gpu_data bottom0) top_data scale_data m))
    top_data bottom0 n c s
  = softmax_at (channels bottom0) (input m n s)
      (scan_max (channels bottom0) (input m n s)) c.
Proof.
  intros Hd Hn Hc Hs. unfold at_ncs at 1.
  rewrite forward_cuda_divided_at
    by (try apply count_eq; assumption).
  rewrite scan_sum_sum_c. reflexivity.
Qed.

Lemma Forward_gpu_exact_at (m : mem R) :
  device_context_backend this = BACKEND_CUDA ->
  mutable_gpu_data top0 <> mutable_gpu_data (scale_ this) ->
  exists m',
    Forward_gpu use_greentea program this (bottom0 :: bottom) (top0 :: top) m
    = Some m' /\
    forall n c s,
      0 <= n < num bottom0 -> 0 <= c < channels bottom0 ->
      0 <= s < height bottom0 * width bottom0 ->
      at_ncs m' (mutable_gpu_data top0) bottom0 n c s
      = softmax_at (channels bottom0) (input m n s)
          (scan_max (channels bottom0) (input m n s)) c.
Proof.
  intros Hb Hd. eexists. split.
  - unfold Forward_gpu. rewrite Hb. reflexivity.
  - intros n c s Hn Hc Hs. now apply forward_exact_at.
Qed.

(** C6.  Stability invariant, in exact arithmetic: right after the broadcast subtraction of the
    forward pass every element of the working tensor is at most 0, so the
    exponentiation that follows only sees non-positive arguments. *)
Theorem forward_subtracted_nonpositive (m : mem R) :
  device_context_backend this = BACKEND_CUDA ->
  mutable_gpu_data top0 <> mutable_gpu_data (scale_ this) ->
  1 <= channels bottom0 -> 1 <= height bottom0 * width bottom0 ->
  let working :=
    forward_cuda_subtracted (count bottom0) (num bottom0) (channels bottom0)
      (height bottom0 * width bottom0) (gpu_data bottom0)
      (mutable_gpu_data top0) (mutable_gpu_data (scale_ this)) m in
  Forward_gpu use_greentea program this (bottom0 :: bottom) (top0 :: top) m
  = Some
      (kernel_channel_div (count bottom0) (num bottom0) (channels bottom0)
         (height bottom0 * width bottom0)
         (mutable_gpu_data (scale_ this)) (mutable_gpu_data top0)
         (kernel_channel_sum (num bottom0) (channels bottom0)
            (height bottom0 * width bottom0)
            (mutable_gpu_data top0) (mutable_gpu_data (scale_ this))
            (kernel_exp
               (num bottom0 * channels bottom0
                * (height bottom0 * width bottom0))
               (mutable_gpu_data top0) (mutable_gpu_data top0) working))) /\
  forall i, 0 <= i < count bottom0 ->
    (working (mutable_gpu_data top0) i <= 0)%R.
Proof.
  intros Hb Hd HC HS working. split.
  - apply Forward_gpu_cuda_eq. exact Hb.
  - intros i Hi. rewrite count_eq in Hi.
    destruct (linear_index_decompose (channels bottom0)
                (height bottom0 * width bottom0) (num bottom0) i)
      as [n [c [s [Hn [Hc [Hs ->]]]]]]; try lia.
    unfold working.
    rewrite forward_cuda_subtracted_at
      by (try apply count_eq; assumption).
    pose proof (scan_max_upper (channels bottom0)
                  (fun c' => m (gpu_data bottom0)
                     (linear_index (channels bottom0)
                        (height bottom0 * width bottom0) n c' s)) c Hc) as U.
    cbn [d_sub R_ops]. cbv beta in U. lra.
Qed.

End ExactLayer.

(** ** The backward pass in exact arithmetic *)

(** C2.  Backward pass, in exact arithmetic: [Backward_gpu] is the copy followed by channel-dot,
    broadcast-subtract and the elementwise multiply, and it leaves at every
    element (n, c, s) of the bottom gradient
    [y[n,c,s] * (g[n,c,s] - dot_c(g, y)[n,s])] for the top gradient [g] and
    the top data [y] as they were on entry. *)
Theorem Backward_gpu_gradient (this : SoftmaxLayer) top0 top propagate_down
    bottom0 bottom (m : mem R) :
  mutable_gpu_data (scale_ this) <> gpu_diff top0 ->
  mutable_gpu_data (scale_ this) <> gpu_data top0 ->
  mutable_gpu_data (scale_ this) <> mutable_gpu_diff bottom0 ->
  gpu_data top0 <> mutable_gpu_diff bottom0 ->
  exists m',
    Backward_gpu this (top0 :: top) propagate_down (bottom0 :: bottom) m
    = Some m' /\
    m' = caffe_gpu_mul (count top0) (mutable_gpu_diff bottom0)
           (gpu_data top0) (mutable_gpu_diff bottom0)
           (kernel_channel_subtract (count top0) (num top0) (channels top0)
              (height top0 * width top0)
              (mutable_gpu_data (scale_ this)) (mutable_gpu_diff bottom0)
              (kernel_channel_dot (num top0) (channels top0)
                 (height top0 * width top0)
                 (gpu_diff top0) (gpu_data top0)
                 (mutable_gpu_data (scale_ this))
                 (caffe_copy (count top0) (gpu_diff top0)
                    (mutable_gpu_diff bottom0) m))) /\
    forall n c s,
      0 <= n < num top0 -> 0 <= c < channels top0 ->
      0 <= s < height top0 * width top0 ->
      at_ncs m' (mutable_gpu_diff bottom0) top0 n c s
      = (at_ncs m (gpu_data top0) top0 n c s
         * (at_ncs m (gpu_diff top0) top0 n c s
            - dot_c (channels top0)
                (fun c' => at_ncs m (gpu_diff top0) top0 n c' s)
                (fun c' => at_ncs m (gpu_data top0) top0 n c' s)))%R.
Proof.
  intros H1 H2 H3 H4. eexists. split; [reflexivity|]. split; [reflexivity|].
  intros n c s Hn Hc Hs. unfold at_ncs at 1.
  rewrite backward_at by (try apply count_eq; assumption).
  rewrite scan_sum_sum_c. unfold dot_c, at_ncs.
  cbn [d_mul d_sub R_ops]. apply Rmult_comm.
Qed.

(** ** The initial value of the max scan *)

Lemma FLT_MAX_lt_DBL_MAX : (FLT_MAX < DBL_MAX)%R.
Proof.
  unfold FLT_MAX, DBL_MAX. apply IZR_lt. apply Z.ltb_lt.
  vm_compute. reflexivity.
Qed.

Lemma below_single_lt : (below_single < - FLT_MAX)%R.
Proof.
  unfold below_single, FLT_MAX. rewrite <- opp_IZR. apply IZR_lt.
  apply Z.ltb_lt. vm_compute. reflexivity.
Qed.

Lemma below_single_in_double_range : in_range Double below_single.
Proof.
  unfold in_range, lowest_finite, below_single, DBL_MAX.
  rewrite Ropp_involutive, <- opp_IZR.
  split; apply IZR_le; apply Z.leb_le; vm_compute; reflexivity.
Qed.

(** For a single precision tensor, every element of which is in the single
    precision range, the max kernel leaves the channel maximum of each
    group. *)
Lemma kernel_channel_max_single N C S data out (m : mem R) n s :
  data <> out -> 1 <= C -> 0 <= n < N -> 0 <= s < S ->
  (forall c, 0 <= c < C -> in_range Single (m data (linear_index C S n c s))) ->
  kernel_channel_max N C S data out m out (group_index S n s)
  = max_c C (fun c => m data (linear_index C S n c s)).
Proof.
  intros Hne HC Hn Hs Hx.
  rewrite (proj1 (kernel_channel_max_spec N C S data out m Hne))
    by (apply group_index_range; assumption).
  rewrite <- (scan_max_is_max_c C (fun c => m data (linear_index C S n c s)) HC).
  - apply scan_max_ext. intros c Hc. now rewrite reduction_cell by lia.
  - exists 0. split; [lia|]. apply (Hx 0). lia.
Qed.

(** C3, at the input where the code departs from it.  A one-element tensor
    of double precision holding [-2^130]: the value is in the range of the
    element type and is its own channel maximum, yet the max kernel leaves
    [-FLT_MAX], the initial value of its scan, which is not the most negative
    finite value of the element type. *)
Theorem kernel_channel_max_below_single :
  in_range Double below_single /\
  max_c 1 (fun c => below_single_mem 1 (linear_index 1 1 0 c 0))
  = below_single /\
  kernel_channel_max 1 1 1 1 2 below_single_mem 2 (group_index 1 0 0)
  = (- FLT_MAX)%R /\
  (- FLT_MAX)%R <> below_single /\
  d_neg_FLT_MAX <> lowest_finite Double.
Proof.
  pose proof below_single_lt as Hlt.
  pose proof FLT_MAX_lt_DBL_MAX as Hmax.
  split; [exact below_single_in_double_range|].
  split; [reflexivity|]. split; [|split].
  - rewrite (proj1 (kernel_channel_max_spec 1 1 1 1 2 below_single_mem
                      ltac:(lia))) by (vm_compute; split; congruence).
    unfold scan_max, for_int. cbn [Z.to_nat Pos.to_nat Pos.iter_op loop_upto].
    unfold below_single_mem. cbn [d_max d_neg_FLT_MAX R_ops].
    apply Rmax_right. lra.
  - lra.
  - cbn [d_neg_FLT_MAX R_ops lowest_finite]. lra.
Qed.

(** ** The forward pass run in place *)

(** C9, where it fails.  With the top blob being the bottom blob, the forward
    pass leaves a value of at most 1 where the input held 2. *)
Lemma Forward_gpu_in_place_overwrites_bottom :
  exists m',
    Forward_gpu false idle_program demo_layer [demo_bottom] [demo_bottom]
      demo_mem = Some m' /\
    m' (gpu_data demo_bottom) 1 <> demo_mem (gpu_data demo_bottom) 1.
Proof.
  destruct (Forward_gpu_exact_at false idle_program demo_layer
              demo_bottom demo_bottom [] [] demo_mem eq_refl)
    as [m' [E V]]; [cbv; lia|].
  exists m'. split; [exact E|].
  specialize (V 0 1 0 ltac:(simpl; lia) ltac:(simpl; lia) ltac:(simpl; lia)).
  pose proof (softmax_at_bounds (channels demo_bottom)
                (fun c' => at_ncs demo_mem (gpu_data demo_bottom)
                             demo_bottom 0 c' 0)
                (scan_max (channels demo_bottom)
                   (fun c' => at_ncs demo_mem (gpu_data demo_bottom)
                                demo_bottom 0 c' 0)) 1
                ltac:(simpl; lia)) as B.
  rewrite <- V in B.
  change (at_ncs m' (mutable_gpu_data demo_bottom) demo_bottom 0 1 0)
    with (m' (gpu_data demo_bottom) 1) in B.
  change (demo_mem (gpu_data demo_bottom) 1) with 2%R.
  lra.
Qed.

(** * The theorems at the concrete configuration *)

Lemma Backward_gpu_gradient_witness :
  exists m',
    Backward_gpu demo_layer [demo_top] [false] [demo_bottom] demo_mem
    = Some m' /\
    at_ncs m' (mutable_gpu_diff demo_bottom) demo_top 0 1 0
    = (at_ncs demo_mem (gpu_data demo_top) demo_top 0 1 0
       * (at_ncs demo_mem (gpu_diff demo_top) demo_top 0 1 0
          - dot_c 2
              (fun c' => at_ncs demo_mem (gpu_diff demo_top) demo_top 0 c' 0)
              (fun c' => at_ncs demo_mem (gpu_data demo_top) demo_top 0 c' 0)))%R.
Proof.
  destruct (Backward_gpu_gradient demo_layer demo_top [] [false]
              demo_bottom [] demo_mem)
    as [m' [E [_ V]]];
    [simpl; lia | simpl; lia | simpl; lia | simpl; lia |].
  exists m'. split; [exact E|]. apply V; simpl; lia.
Defined.

Lemma forward_subtracted_nonpositive_witness :
  (forward_cuda_subtracted (count demo_bottom) (num demo_bottom)
     (channels demo_bottom) (height demo_bottom * width demo_bottom)
     (gpu_data demo_bottom) (mutable_gpu_data demo_top)
     (mutable_gpu_data (scale_ demo_layer)) demo_mem
     (mutable_gpu_data demo_top) 1%Z <= 0)%R.
Proof.
  destruct (forward_subtracted_nonpositive false idle_program demo_layer
              demo_bottom demo_top [] [] demo_mem)
    as [_ V]; [reflexivity | simpl; lia | simpl; lia | simpl; lia |].
  apply V. vm_compute. split; congruence.
Defined.

Lemma kernel_channel_subtract_broadcast_witness :
  kernel_channel_subtract (1 * 2 * 1) 1 2 1 5 3 demo_mem 3 1
  = (demo_mem 3%Z 1%Z - demo_mem 5%Z (1 / (2 * 1) * 1 + 1 mod 1)%Z)%R /\
  kernel_channel_subtract (1 * 2 * 1) 1 2 1 5 3 demo_mem 3
    (linear_index 2 1 0 1 0)
  = (demo_mem 3%Z (linear_index 2 1 0 1 0)
     - demo_mem 5%Z (group_index 1 0 0))%R.
Proof.
  destruct (kernel_channel_subtract_broadcast 1 2 1 5 3 demo_mem)
    as [V W]; [lia | lia | lia |].
  split; [apply V; lia | apply W; lia].
Defined.

Lemma Forward_gpu_preserves_bottom_witness :
  exists m',
    Forward_gpu false idle_program demo_layer [demo_bottom] [demo_top]
      demo_mem = Some m' /\
    m' (gpu_data demo_bottom) 1 = demo_mem (gpu_data demo_bottom) 1.
Proof.
  destruct (Forward_gpu_preserves_bottom false idle_program demo_layer
              demo_bottom [] demo_top [] demo_mem)
    as [m' [E [V _]]]; [reflexivity | simpl; lia | simpl; lia |].
  exists m'. split; [exact E | apply V].
Defined.

Lemma Backward_gpu_ignores_propagate_down_witness :
  exists m',
    Backward_gpu demo_layer [demo_top] [false] [demo_bottom] demo_mem
    = Some m' /\
    Backward_gpu demo_layer [demo_top] [true] [demo_bottom] demo_mem
    = Some m'.
Proof.
  destruct (Backward_gpu_ignores_propagate_down demo_layer demo_top []
              demo_bottom [] demo_mem)
    as [m' [E _]]; [simpl; lia | simpl; lia | simpl; lia | simpl; lia |].
  exists m'. split; apply E.
Defined.

(** * Further properties of the kernels *)

Section KernelProperties.

Context {Dtype : Type} {ops : DtypeOps Dtype}.

(** A loop whose worker [i] only stores at [out[i]] changes no cell outside
    [out[0 .. k)], whatever it stores. *)
Lemma loop_store_frame (out : ptr) (f : Z -> mem Dtype -> Dtype)
    (m : mem Dtype) (k : nat) p j :
  p <> out \/ j < 0 \/ Z.of_nat k <= j ->
  loop_upto k (fun i m => store m out i (f i m)) m p j = m p j.
Proof.
  induction k as [|k IH]; intros H; [reflexivity|].
  cbn [loop_upto]. rewrite store_other by lia. apply IH. lia.
Qed.

Lemma kernel_loop_frame (bound : Z) (out : ptr)
    (f : Z -> mem Dtype -> Dtype) (m : mem Dtype) p j :
  p <> out \/ j < 0 \/ bound <= j ->
  CUDA_KERNEL_LOOP bound (fun i m => store m out i (f i m)) m p j = m p j.
Proof.
  intros H. unfold CUDA_KERNEL_LOOP, for_int. apply loop_store_frame. lia.
Qed.

Lemma run_workers_snoc (order : list Z) (a : Z)
    (body : Z -> mem Dtype -> mem Dtype) (m : mem Dtype) :
  run_workers (order ++ [a]) body m = body a (run_workers order body m).
Proof. unfold run_workers. now rewrite fold_left_app. Qed.

(** Workers that store [f i] at [out[i]], where [f i] reads no cell another
    worker writes, leave [f i] of the initial store at [out[i]] in whatever
    order they run. *)
Lemma run_workers_spec (bound : Z) (out : ptr)
    (f : Z -> mem Dtype -> Dtype) (m : mem Dtype) (order : list Z) :
  (forall i m1, 0 <= i < bound ->
     (forall p j, p <> out \/ j < 0 \/ bound <= j \/ j = i ->
        m1 p j = m p j) ->
     f i m1 = f i m) ->
  NoDup order -> (forall i, In i order -> 0 <= i < bound) ->
  (forall i, In i order ->
     run_workers order (fun i m => store m out i (f i m)) m out i = f i m) /\
  (forall p j, p <> out \/ ~ In j order ->
     run_workers order (fun i m => store m out i (f i m)) m p j = m p j).
Proof.
  intros Hf. induction order as [|a order IH] using rev_ind;
    intros Hnd Hin.
  - split; [intros i [] | reflexivity].
  - apply NoDup_remove in Hnd. rewrite app_nil_r in Hnd.
    destruct Hnd as [Hnd Ha].
    destruct IH as [IHv IHf];
      [assumption | intros; apply Hin, in_or_app; now left|].
    assert (Hfa : f a (run_workers order
                         (fun i m => store m out i (f i m)) m) = f a m).
    { apply Hf; [apply Hin, in_or_app; right; now left|].
      intros p j Hpj. apply IHf.
      destruct Hpj as [H|[H|[H|H]]]; [now left | right | right | right].
      - intros Hj.
        assert (0 <= j < bound) by (apply Hin, in_or_app; now left). lia.
      - intros Hj.
        assert (0 <= j < bound) by (apply Hin, in_or_app; now left). lia.
      - now subst j. }
    split.
    + intros i Hi. rewrite run_workers_snoc.
      destruct (Z.eq_dec i a) as [->|Hne].
      * rewrite store_same. exact Hfa.
      * rewrite store_other by (right; assumption). apply IHv.
        apply in_app_or in Hi. destruct Hi as [Hi|[Hi|[]]];
          [assumption | congruence].
    + intros p j Hpj. rewrite run_workers_snoc.
      rewrite store_other.
      * apply IHf. destruct Hpj as [H|H]; [now left | right].
        intros Hj. apply H, in_or_app. now left.
      * destruct Hpj as [H|H]; [now left | right].
        intros ->. apply H, in_or_app. right. now left.
Qed.

(** ... and that is what the launch in index order leaves. *)
Lemma run_workers_any_order (bound : Z) (out : ptr)
    (f : Z -> mem Dtype -> Dtype) (m : mem Dtype) (order : list Z) :
  (forall i m1, 0 <= i < bound ->
     (forall p j, p <> out \/ j < 0 \/ bound <= j \/ j = i ->
        m1 p j = m p j) ->
     f i m1 = f i m) ->
  schedule bound order ->
  forall p j,
    run_workers order (fun i m => store m out i (f i m)) m p j
    = CUDA_KERNEL_LOOP bound (fun i m => store m out i (f i m)) m p j.
Proof.
  intros Hf [Hnd Hin] p j.
  destruct (run_workers_spec bound out f m order Hf Hnd) as [Rv Rf];
    [intros; now apply Hin|].
  destruct (kernel_loop_spec bound out f m) as [Kv Kf].
  { intros i m1 Hi H. apply Hf; [assumption|].
    intros p' j' Hpj. apply H. lia. }
  destruct (Z.eq_dec p out) as [->|Hp].
  - destruct (Z_lt_dec j 0) as [Hj|Hj];
      [|destruct (Z_le_dec bound j) as [Hj'|Hj']].
    + rewrite Rf, Kf; [reflexivity | lia |].
      right. intros H. apply Hin in H. lia.
    + rewrite Rf, Kf; [reflexivity | lia |].
      right. intros H. apply Hin in H. lia.
    + rewrite Rv, Kv; [reflexivity | lia | apply Hin; lia].
  - rewrite Rf, Kf; [reflexivity | now left | now left].
Qed.

(** A cell no other worker writes: it is in another buffer, or it is the
    worker's own cell. *)
Local Ltac own_cell H :=
  apply H;
  first [ left; congruence | right; right; right; reflexivity ].

(** X7.  Reduction kernels, any order: with the output buffer apart from the
    buffers read, the max, sum and dot kernels leave the same store whatever
    the order in which the indices of [0, num * spatial_dim) are worked. *)
Theorem reduction_kernels_any_order N C S data_1 data_2 out
    (m : mem Dtype) (order : list Z) :
  data_1 <> out -> data_2 <> out -> schedule (N * S) order ->
  forall p j,
    run_workers order (kernel_channel_max_worker N C S data_1 out) m p j
    = kernel_channel_max N C S data_1 out m p j /\
    run_workers order (kernel_channel_sum_worker N C S data_1 out) m p j
    = kernel_channel_sum N C S data_1 out m p j /\
    run_workers order (kernel_channel_dot_worker N C S data_1 data_2 out) m p j
    = kernel_channel_dot N C S data_1 data_2 out m p j.
Proof.
  intros H1 H2 Hs p j. split; [|split].
  - apply (run_workers_any_order (N * S) out
             (fun g m => scan_max C
                (fun c => m data_1 ((g ÷ S * C + c) * S + Z.rem g S))));
      [|assumption].
    intros g m1 _ H. apply for_int_ext. intros c acc _. f_equal. own_cell H.
  - apply (run_workers_any_order (N * S) out
             (fun g m => scan_sum C
                (fun c => m data_1 ((g ÷ S * C + c) * S + Z.rem g S))));
      [|assumption].
    intros g m1 _ H. apply for_int_ext. intros c acc _. f_equal. own_cell H.
  - apply (run_workers_any_order (N * S) out
             (fun g m => scan_sum C (fun c =>
                d_mul (m data_1 ((g ÷ S * C + c) * S + Z.rem g S))
                      (m data_2 ((g ÷ S * C + c) * S + Z.rem g S)))));
      [|assumption].
    intros g m1 _ H. apply for_int_ext. intros c acc _.
    f_equal. f_equal; own_cell H.
Qed.

(** X8.  Elementwise kernels, any order: the broadcast subtraction and
    division (scalar buffer apart from the data) and the exponentiation (in
    place or not) leave the same store whatever the order in which the
    indices of [0, count) are worked. *)
Theorem elementwise_kernels_any_order cnt N C S scalar data out
    (m : mem Dtype) (order : list Z) :
  scalar <> data -> schedule cnt order ->
  forall p j,
    run_workers order
      (kernel_channel_subtract_worker cnt N C S scalar data) m p j
    = kernel_channel_subtract cnt N C S scalar data m p j /\
    run_workers order (kernel_channel_div_worker cnt N C S scalar data) m p j
    = kernel_channel_div cnt N C S scalar data m p j /\
    run_workers order (kernel_exp_worker cnt data data) m p j
    = kernel_exp cnt data data m p j /\
    (data <> out ->
     run_workers order (kernel_exp_worker cnt data out) m p j
     = kernel_exp cnt data out m p j).
Proof.
  intros Hne Hs p j. split; [|split; [|split]].
  - apply (run_workers_any_order cnt data
             (fun i m =>
                d_sub (m data i) (m scalar (i ÷ C ÷ S * S + Z.rem i S))));
      [|assumption].
    intros i m1 _ H. f_equal; own_cell H.
  - apply (run_workers_any_order cnt data
             (fun i m =>
                d_div (m data i) (m scalar (i ÷ C ÷ S * S + Z.rem i S))));
      [|assumption].
    intros i m1 _ H. f_equal; own_cell H.
  - apply (run_workers_any_order cnt data (fun i m => d_exp (m data i)));
      [|assumption].
    intros i m1 _ H. f_equal. own_cell H.
  - intros Hout.
    apply (run_workers_any_order cnt out (fun i m => d_exp (m data i)));
      [|assumption].
    intros i m1 _ H. f_equal. own_cell H.
Qed.

End KernelProperties.

Section KernelResults.

Context {Dtype : Type} {ops : DtypeOps Dtype}.

(** X3.  Broadcast division: at every linear index [i] below
    [num * channels * spatial_dim] the kernel leaves
    [data[i] / scalar[n * spatial_dim + s]] with
    [n = i / (channels * spatial_dim)] and [s = i mod spatial_dim], so that
    element (n, c, s) is divided by the scalar of group (n, s); the scalar
    buffer and the cells of [data] from [count] on are left as they were. *)
Theorem kernel_channel_div_broadcast N C S scalar data (m : mem Dtype) :
  scalar <> data -> 1 <= C -> 1 <= S ->
  (forall i, 0 <= i < N * C * S ->
     kernel_channel_div (N * C * S) N C S scalar data m data i
     = d_div (m data i) (m scalar (i / (C * S) * S + i mod S))) /\
  (forall n c s, 0 <= n < N -> 0 <= c < C -> 0 <= s < S ->
     kernel_channel_div (N * C * S) N C S scalar data m data
       (linear_index C S n c s)
     = d_div (m data (linear_index C S n c s))
             (m scalar (group_index S n s))) /\
  (forall p j, p <> data \/ j < 0 \/ N * C * S <= j ->
     kernel_channel_div (N * C * S) N C S scalar data m p j = m p j).
Proof.
  intros Hne HC HS.
  destruct (kernel_channel_div_spec (N * C * S) N C S scalar data m Hne)
    as [V F].
  split; [|split].
  - intros i Hi. rewrite V by assumption.
    rewrite quot_quot_mul by lia.
    rewrite Z.rem_mod_nonneg by lia. reflexivity.
  - intros n c s Hn Hc Hs.
    rewrite V by (apply linear_index_range; assumption).
    rewrite broadcast_cell by lia. reflexivity.
  - exact F.
Qed.

(** X4.  Exponentiation: [kernel_exp] leaves [exp(data[i])] at [out[i]] for
    every [i] in [0, count), for the values of [data] on entry, whether
    [out] is another buffer or [data] itself, and changes no other cell. *)
Theorem kernel_exp_elementwise cnt data out (m : mem Dtype) :
  (forall i, 0 <= i < cnt ->
     kernel_exp cnt data out m out i = d_exp (m data i)) /\
  (forall p j, p <> out \/ j < 0 \/ cnt <= j ->
     kernel_exp cnt data out m p j = m p j).
Proof.
  apply (kernel_loop_spec cnt out (fun i m => d_exp (m data i))).
  intros i m1 _ H. f_equal.
  destruct (Z.eq_dec data out); unwritten H.
Qed.

Lemma reductions_no_channels N C S data_1 data_2 out (m : mem Dtype) g :
  C <= 0 -> 0 <= g < N * S ->
  kernel_channel_max N C S data_1 out m out g = d_neg_FLT_MAX /\
  kernel_channel_sum N C S data_1 out m out g = d_zero /\
  kernel_channel_dot N C S data_1 data_2 out m out g = d_zero.
Proof.
  intros HC Hg.
  assert (E : Z.to_nat C = 0%nat) by lia.
  split; [|split].
  - destruct (kernel_loop_spec (N * S) out
                (fun g m => scan_max C
                   (fun c => m data_1 ((g ÷ S * C + c) * S + Z.rem g S)))
                m) as [V _].
    + intros i m1 _ _. unfold scan_max, for_int. now rewrite E.
    + unfold kernel_channel_max. unfold scan_max in V. rewrite V by assumption.
      unfold for_int. now rewrite E.
  - destruct (kernel_loop_spec (N * S) out
                (fun g m => scan_sum C
                   (fun c => m data_1 ((g ÷ S * C + c) * S + Z.rem g S)))
                m) as [V _].
    + intros i m1 _ _. unfold scan_sum, for_int. now rewrite E.
    + unfold kernel_channel_sum. unfold scan_sum in V. rewrite V by assumption.
      unfold for_int. now rewrite E.
  - destruct (kernel_loop_spec (N * S) out
                (fun g m => scan_sum C (fun c =>
                   d_mul (m data_1 ((g ÷ S * C + c) * S + Z.rem g S))
                         (m data_2 ((g ÷ S * C + c) * S + Z.rem g S))))
                m) as [V _].
    + intros i m1 _ _. unfold scan_sum, for_int. now rewrite E.
    + unfold kernel_channel_dot. unfold scan_sum in V. rewrite V by assumption.
      unfold for_int. now rewrite E.
Qed.


(** X6.  Reductions over no channel: with [channels <= 0] the scans do not
    run, and every group gets the initial value of its scan: [-FLT_MAX] from
    the max kernel, 0 from the sum and the dot kernel, whatever the buffers
    hold and even when the output buffer is the one read. *)
Theorem reductions_without_channels N C S data_1 data_2 out (m : mem Dtype) :
  C <= 0 ->
  forall g, 0 <= g < N * S ->
    kernel_channel_max N C S data_1 out m out g = d_neg_FLT_MAX /\
    kernel_channel_sum N C S data_1 out m out g = d_zero /\
    kernel_channel_dot N C S data_1 data_2 out m out g = d_zero.
Proof.
  intros HC g Hg. now apply reductions_no_channels.
Qed.

End KernelResults.

Section ExactKernelResults.

(** X5.  Channel max, in exact arithmetic: with at least one channel the max
    kernel leaves at [out[n * spatial_dim + s]] the channel maximum of group
    (n, s) clamped from below at [-FLT_MAX]; this bounds every channel of
    the group from above, and it is the channel maximum itself as soon as
    one channel of the group is at least [-FLT_MAX]. *)
Theorem kernel_channel_max_clamped N C S data out (m : mem R) :
  data <> out -> 1 <= C ->
  forall n s, 0 <= n < N -> 0 <= s < S ->
    let x c := m data (linear_index C S n c s) in
    let v := kernel_channel_max N C S data out m out (group_index S n s) in
    v = Rmax (max_c C x) (- FLT_MAX) /\
    (forall c, 0 <= c < C -> (x c <= v)%R) /\
    ((exists c, 0 <= c < C /\ (- FLT_MAX <= x c)%R) -> v = max_c C x).
Proof.
  intros Hne HC n s Hn Hs x v.
  assert (E : v = scan_max C x).
  { unfold v.
    rewrite (proj1 (kernel_channel_max_spec N C S data out m Hne))
      by (apply group_index_range; assumption).
    apply scan_max_ext. intros c Hc. unfold x.
    now rewrite reduction_cell by lia. }
  rewrite E. split; [|split].
  - apply scan_max_clamped. exact HC.
  - intros c Hc. apply scan_max_upper. exact Hc.
  - intros Hx. apply scan_max_is_max_c; assumption.
Qed.

End ExactKernelResults.

(** * Further properties of the two passes *)

Section PassProperties.

Context {Dtype : Type} {ops : DtypeOps Dtype}.

(** The cells a call can write, whatever the buffers are. *)

Lemma caffe_copy_frame N X Y (m : mem Dtype) p j :
  p <> Y \/ j < 0 \/ N <= j -> caffe_copy N X Y m p j = m p j.
Proof. apply (kernel_loop_frame N Y (fun i m => m X i)). Qed.

Lemma caffe_gpu_mul_frame N a b y (m : mem Dtype) p j :
  p <> y \/ j < 0 \/ N <= j -> caffe_gpu_mul N a b y m p j = m p j.
Proof.
  apply (kernel_loop_frame N y (fun i m => d_mul (m a i) (m b i))).
Qed.

Lemma kernel_channel_max_frame N C S data out (m : mem Dtype) p j :
  p <> out \/ j < 0 \/ N * S <= j ->
  kernel_channel_max N C S data out m p j = m p j.
Proof.
  apply (kernel_loop_frame (N * S) out
           (fun g m => scan_max C
              (fun c => m data ((g ÷ S * C + c) * S + Z.rem g S)))).
Qed.

Lemma kernel_channel_sum_frame N C S data out (m : mem Dtype) p j :
  p <> out \/ j < 0 \/ N * S <= j ->
  kernel_channel_sum N C S data out m p j = m p j.
Proof.
  apply (kernel_loop_frame (N * S) out
           (fun g m => scan_sum C
              (fun c => m data ((g ÷ S * C + c) * S + Z.rem g S)))).
Qed.

Lemma kernel_channel_dot_frame N C S data_1 data_2 out (m : mem Dtype) p j :
  p <> out \/ j < 0 \/ N * S <= j ->
  kernel_channel_dot N C S data_1 data_2 out m p j = m p j.
Proof.
  apply (kernel_loop_frame (N * S) out
           (fun g m => scan_sum C (fun c =>
              d_mul (m data_1 ((g ÷ S * C + c) * S + Z.rem g S))
                    (m data_2 ((g ÷ S * C + c) * S + Z.rem g S))))).
Qed.

Lemma kernel_channel_subtract_frame cnt N C S scalar data (m : mem Dtype) p j :
  p <> data \/ j < 0 \/ cnt <= j ->
  kernel_channel_subtract cnt N C S scalar data m p j = m p j.
Proof.
  apply (kernel_loop_frame cnt data
           (fun i m => d_sub (m data i) (m scalar (i ÷ C ÷ S * S + Z.rem i S)))).
Qed.

Lemma kernel_channel_div_frame cnt N C S scalar data (m : mem Dtype) p j :
  p <> data \/ j < 0 \/ cnt <= j ->
  kernel_channel_div cnt N C S scalar data m p j = m p j.
Proof.
  apply (kernel_loop_frame cnt data
           (fun i m => d_div (m data i) (m scalar (i ÷ C ÷ S * S + Z.rem i S)))).
Qed.

Lemma kernel_exp_frame cnt data out (m : mem Dtype) p j :
  p <> out \/ j < 0 \/ cnt <= j -> kernel_exp cnt data out m p j = m p j.
Proof. apply (kernel_loop_frame cnt out (fun i m => d_exp (m data i))). Qed.

(** X9.  Write bounds of the forward pass: on the CUDA backend [Forward_gpu]
    changes no cell other than the first [count] cells of the top data and
    the first [num * spatial_dim] cells of the scratch buffer, whatever the
    blobs are. *)
Theorem Forward_gpu_write_bounds use_greentea (program : GreenteaProgram)
    (this : SoftmaxLayer) bottom0 bottom top0 top (m : mem Dtype) :
  device_context_backend this = BACKEND_CUDA ->
  exists m',
    Forward_gpu use_greentea program this (bottom0 :: bottom) (top0 :: top) m
    = Some m' /\
    forall p j,
      p <> mutable_gpu_data top0 \/ j < 0 \/ count bottom0 <= j ->
      p <> mutable_gpu_data (scale_ this) \/ j < 0
      \/ num bottom0 * (height bottom0 * width bottom0) <= j ->
      m' p j = m p j.
Proof.
  intros Hb. eexists. split; [apply Forward_gpu_cuda_eq; exact Hb|].
  intros p j Ht Hs.
  rewrite kernel_channel_div_frame by assumption.
  rewrite kernel_channel_sum_frame by assumption.
  rewrite kernel_exp_frame by (rewrite <- count_eq; assumption).
  rewrite kernel_channel_subtract_frame by assumption.
  rewrite kernel_channel_max_frame by assumption.
  apply caffe_copy_frame. assumption.
Qed.

(** X10.  Write bounds of the backward pass: [Backward_gpu] changes no cell
    other than the first [count] cells of the bottom gradient and the first
    [num * spatial_dim] cells of the scratch buffer, whatever the blobs
    are; the top data and a top gradient that is not the bottom gradient
    are among what it leaves alone. *)
Theorem Backward_gpu_write_bounds (this : SoftmaxLayer) top0 top
    propagate_down bottom0 bottom (m : mem Dtype) :
  exists m',
    Backward_gpu this (top0 :: top) propagate_down (bottom0 :: bottom) m
    = Some m' /\
    forall p j,
      p <> mutable_gpu_diff bottom0 \/ j < 0 \/ count top0 <= j ->
      p <> mutable_gpu_data (scale_ this) \/ j < 0
      \/ num top0 * (height top0 * width top0) <= j ->
      m' p j = m p j.
Proof.
  eexists. split; [reflexivity|]. intros p j Hd Hs.
  rewrite caffe_gpu_mul_frame by assumption.
  rewrite kernel_channel_subtract_frame by assumption.
  rewrite kernel_channel_dot_frame by assumption.
  apply caffe_copy_frame. assumption.
Qed.

(** X11.  The forward pass reads its input only: two runs on the CUDA backend
    whose stores agree on the first [count] cells of the bottom data leave
    the same values in their top data, whatever the top data, the scratch
    buffer and the rest of the two stores held before, and whether a run is
    in place or has a top blob of its own. *)
Theorem Forward_gpu_reads_input_only use_greentea (program : GreenteaProgram)
    (this : SoftmaxLayer) bottom0 bottom top0 top top0' top'
    (m1 m2 : mem Dtype) :
  device_context_backend this = BACKEND_CUDA ->
  mutable_gpu_data top0 <> mutable_gpu_data (scale_ this) ->
  mutable_gpu_data top0' <> mutable_gpu_data (scale_ this) ->
  (forall i, 0 <= i < count bottom0 ->
     m1 (gpu_data bottom0) i = m2 (gpu_data bottom0) i) ->
  exists m1' m2',
    Forward_gpu use_greentea program this (bottom0 :: bottom) (top0 :: top)
      m1 = Some m1' /\
    Forward_gpu use_greentea program this (bottom0 :: bottom) (top0' :: top')
      m2 = Some m2' /\
    forall n c s,
      0 <= n < num bottom0 -> 0 <= c < channels bottom0 ->
      0 <= s < height bottom0 * width bottom0 ->
      let i := linear_index (channels bottom0)
                 (height bottom0 * width bottom0) n c s in
      m1' (mutable_gpu_data top0) i = m2' (mutable_gpu_data top0') i.
Proof.
  intros Hb Hd Hd' Hagree. do 2 eexists.
  split; [unfold Forward_gpu; rewrite Hb; reflexivity|].
  split; [unfold Forward_gpu; rewrite Hb; reflexivity|].
  intros n c s Hn Hc Hs i. subst i.
  assert (Hx : forall c', 0 <= c' < channels bottom0 ->
            m1 (gpu_data bottom0)
              (linear_index (channels bottom0)
                 (height bottom0 * width bottom0) n c' s)
            = m2 (gpu_data bottom0)
                (linear_index (channels bottom0)
                   (height bottom0 * width bottom0) n c' s)).
  { intros c' Hc'. apply Hagree. rewrite count_eq.
    apply linear_index_range; assumption. }
  rewrite !forward_cuda_divided_at by (try apply count_eq; assumption).
  assert (Hmax : scan_max (channels bottom0)
                   (fun c0 => m1 (gpu_data bottom0)
                      (linear_index (channels bottom0)
                         (height bottom0 * width bottom0) n c0 s))
                 = scan_max (channels bottom0)
                     (fun c0 => m2 (gpu_data bottom0)
                        (linear_index (channels bottom0)
                           (height bottom0 * width bottom0) n c0 s)))
    by (apply scan_max_ext; exact Hx).
  rewrite Hmax, (Hx c Hc). f_equal.
  apply scan_sum_ext. intros c' Hc'. now rewrite (Hx c' Hc').
Qed.

(** X12.  A blob without channels: with [channels = 0] the forward pass on the
    CUDA backend is accepted, divides nothing and leaves every buffer but
    the scratch buffer as it was; the first [num * spatial_dim] cells of the
    scratch buffer end up holding 0. *)
Theorem Forward_gpu_without_channels use_greentea (program : GreenteaProgram)
    (this : SoftmaxLayer) bottom0 bottom top0 top (m : mem Dtype) :
  device_context_backend this = BACKEND_CUDA ->
  channels bottom0 = 0 ->
  exists m',
    Forward_gpu use_greentea program this (bottom0 :: bottom) (top0 :: top) m
    = Some m' /\
    (forall p j, p <> mutable_gpu_data (scale_ this) -> m' p j = m p j) /\
    (forall g, 0 <= g < num bottom0 * (height bottom0 * width bottom0) ->
       m' (mutable_gpu_data (scale_ this)) g = d_zero).
Proof.
  intros Hb HC.
  assert (Hcnt : count bottom0 = 0) by (rewrite count_eq, HC; ring).
  eexists. split; [apply Forward_gpu_cuda_eq; exact Hb|].
  rewrite Hcnt, HC. split.
  - intros p j Hp.
    rewrite kernel_channel_div_frame by lia.
    rewrite kernel_channel_sum_frame by (left; assumption).
    rewrite kernel_exp_frame by lia.
    rewrite kernel_channel_subtract_frame by lia.
    rewrite kernel_channel_max_frame by (left; assumption).
    apply caffe_copy_frame. lia.
  - intros g Hg.
    rewrite kernel_channel_div_frame by lia.
    match goal with
    | |- kernel_channel_sum ?N 0 ?S ?data ?out ?m0 ?out g = _ =>
        destruct (reductions_no_channels N 0 S data data out m0 g)
          as [_ [E _]]; [lia | assumption | exact E]
    end.
Qed.

End PassProperties.

(** ** The reductions in the element type's own arithmetic *)

Section ReductionResults.

Context {Dtype : Type} {ops : DtypeOps Dtype}.

(** X1.  Channel sum: for every element type, with the output buffer apart
    from the data, the sum kernel leaves at [out[n * spatial_dim + s]] the
    elements (n, 0, s), (n, 1, s), ... of the data added one after the
    other, in this order, to 0, with the addition of the element type; it
    changes nothing but [out[0 .. num * spatial_dim)]. *)
Theorem kernel_channel_sum_in_order N C S data out (m : mem Dtype) :
  data <> out ->
  (forall n s, 0 <= n < N -> 0 <= s < S ->
     kernel_channel_sum N C S data out m out (group_index S n s)
     = loop_upto (Z.to_nat C)
         (fun c sum => d_add sum (m data (linear_index C S n c s)))
         d_zero) /\
  (forall p j, p <> out \/ j < 0 \/ N * S <= j ->
     kernel_channel_sum N C S data out m p j = m p j).
Proof.
  intros Hne.
  destruct (kernel_channel_sum_spec N C S data out m Hne) as [V F].
  split; [|exact F].
  intros n s Hn Hs. rewrite V by (apply group_index_range; assumption).
  unfold scan_sum, for_int. apply loop_upto_ext. intros c acc Hc.
  now rewrite reduction_cell by lia.
Qed.

(** X2.  Channel dot product: for every element type, with the output
    buffer apart from the two tensors, the dot kernel leaves at
    [out[n * spatial_dim + s]] the products
    [data_1[n,c,s] * data_2[n,c,s]] for c = 0, 1, ... added one after the
    other, in this order, to 0, with the multiplication and the addition of
    the element type; it changes nothing but
    [out[0 .. num * spatial_dim)]. *)
Theorem kernel_channel_dot_in_order N C S data_1 data_2 out (m : mem Dtype) :
  data_1 <> out -> data_2 <> out ->
  (forall n s, 0 <= n < N -> 0 <= s < S ->
     kernel_channel_dot N C S data_1 data_2 out m out (group_index S n s)
     = loop_upto (Z.to_nat C)
         (fun c dot =>
            d_add dot
              (d_mul (m data_1 (linear_index C S n c s))
                     (m data_2 (linear_index C S n c s))))
         d_zero) /\
  (forall p j, p <> out \/ j < 0 \/ N * S <= j ->
     kernel_channel_dot N C S data_1 data_2 out m p j = m p j).
Proof.
  intros H1 H2.
  destruct (kernel_channel_dot_spec N C S data_1 data_2 out m H1 H2)
    as [V F].
  split; [|exact F].
  intros n s Hn Hs. rewrite V by (apply group_index_range; assumption).
  unfold scan_sum, for_int. apply loop_upto_ext. intros c acc Hc.
  now rewrite reduction_cell by lia.
Qed.

End ReductionResults.

(** * The forward pass in double precision *)

Lemma exp_flushed_underflows : exp_underflows exp_flushed.
Proof. intros x H. unfold exp_flushed. now rewrite H. Qed.

Lemma exp_flushed_of_zero : exp_of_zero exp_flushed.
Proof. reflexivity. Qed.

Section DoublePrecision.

Variable exp_double : float -> float.
Hypothesis Hunder : exp_underflows exp_double.

(** The scan of the max kernel stops at [-FLT_MAX] above [-2^130], and the
    exponential of the difference, about -1.02e39, is 0. *)
Lemma double_below_exponential :
  exp_double
    (PrimFloat.sub double_below_single
       (fmax double_below_single double_neg_FLT_MAX)) = 0%float.
Proof. apply Hunder. vm_compute. reflexivity. Qed.

(** The one-element tensor holding [-2^130]: the store the broadcast
    division reads has 0 as the element and 0 as the sum of the group. *)
Lemma forward_double_below_summed :
  let summed :=
    forward_cuda_summed (ops := double_ops exp_double)
      (count unit_bottom) (num unit_bottom) (channels unit_bottom)
      (height unit_bottom * width unit_bottom) (gpu_data unit_bottom)
      (mutable_gpu_data unit_top) (mutable_gpu_data (scale_ demo_layer))
      double_below_mem in
  summed (mutable_gpu_data unit_top) 0 = 0%float /\
  summed (mutable_gpu_data (scale_ demo_layer)) 0 = 0%float.
Proof.
  intros summed. split.
  - change 0 with (linear_index (channels unit_bottom)
                     (height unit_bottom * width unit_bottom) 0 0 0) at 1.
    unfold summed.
    rewrite forward_cuda_summed_at by (try apply count_eq; simpl; lia).
    unfold scan_max, for_int.
    change (Z.to_nat (channels unit_bottom)) with 1%nat.
    cbn [loop_upto]. unfold double_below_mem.
    cbn [d_exp d_sub d_max d_neg_FLT_MAX double_ops].
    apply double_below_exponential.
  - change 0 with (group_index (height unit_bottom * width unit_bottom) 0 0)
      at 1.
    unfold summed.
    rewrite forward_cuda_summed_scale by (try apply count_eq; simpl; lia).
    unfold scan_sum, scan_max, for_int.
    change (Z.to_nat (channels unit_bottom)) with 1%nat.
    cbn [loop_upto]. unfold double_below_mem.
    cbn [d_exp d_sub d_max d_add d_zero d_neg_FLT_MAX double_ops].
    rewrite double_below_exponential. reflexivity.
Qed.

(** ... and the division leaves 0/0, a NaN, in the output. *)
Lemma forward_double_below_output :
  PrimFloat.is_nan
    (kernel_channel_div (ops := double_ops exp_double)
       (count unit_bottom) (num unit_bottom) (channels unit_bottom)
       (height unit_bottom * width unit_bottom)
       (mutable_gpu_data (scale_ demo_layer)) (mutable_gpu_data unit_top)
       (forward_cuda_summed (ops := double_ops exp_double)
          (count unit_bottom) (num unit_bottom) (channels unit_bottom)
          (height unit_bottom * width unit_bottom) (gpu_data unit_bottom)
          (mutable_gpu_data unit_top) (mutable_gpu_data (scale_ demo_layer))
          double_below_mem)
       (mutable_gpu_data unit_top) 0) = true.
Proof.
  change 0 with (linear_index (channels unit_bottom)
                   (height unit_bottom * width unit_bottom) 0 0 0) at 1.
  rewrite forward_cuda_divided_at by (try apply count_eq; simpl; lia).
  unfold scan_sum, scan_max, for_int.
  change (Z.to_nat (channels unit_bottom)) with 1%nat.
  cbn [loop_upto]. unfold double_below_mem.
  cbn [d_exp d_sub d_max d_add d_div d_zero d_neg_FLT_MAX double_ops].
  rewrite double_below_exponential. reflexivity.
Qed.

(** C1, at the input where the code departs from it.  On a one-element
    [double] tensor holding [-2^130] the scan of the max kernel stops at
    [-FLT_MAX], the exponential of the difference underflows to 0, the sum
    is 0 and the output is 0/0, a NaN; the softmax of a one-element group
    is 1. *)
Theorem Forward_gpu_double_below_single :
  exists m',
    Forward_gpu (ops := double_ops exp_double) false idle_program_double
      demo_layer [unit_bottom] [unit_top] double_below_mem = Some m' /\
    PrimFloat.is_nan (m' (mutable_gpu_data unit_top) 0) = true /\
    softmax_ref 1 (fun _ => below_single) 0 = 1%R.
Proof.
  eexists. split; [reflexivity|]. split.
  - exact forward_double_below_output.
  - unfold softmax_ref, softmax_at, max_c, sum_c.
    change (Z.to_nat (1 - 1)) with 0%nat. change (Z.to_nat 1) with 1%nat.
    cbn [max_upto sum_upto].
    pose proof (exp_pos (below_single - below_single)).
    field. lra.
Qed.

(** C7, at the input where the code departs from it.  On a one-element
    [double] tensor holding [-2^130], one channel, the scalar the broadcast
    division reads for index 0 is 0. *)
Theorem forward_divisor_double_zero :
  let channels := channels unit_bottom in
  let spatial_dim := height unit_bottom * width unit_bottom in
  let summed :=
    forward_cuda_summed (ops := double_ops exp_double)
      (count unit_bottom) (num unit_bottom) channels spatial_dim
      (gpu_data unit_bottom) (mutable_gpu_data unit_top)
      (mutable_gpu_data (scale_ demo_layer)) double_below_mem in
  Forward_gpu (ops := double_ops exp_double) false idle_program_double
    demo_layer [unit_bottom] [unit_top] double_below_mem
  = Some
      (kernel_channel_div (ops := double_ops exp_double)
         (count unit_bottom) (num unit_bottom) channels
         spatial_dim (mutable_gpu_data (scale_ demo_layer))
         (mutable_gpu_data unit_top) summed) /\
  1 <= channels /\
  let index := 0 in
  let n := index ÷ channels ÷ spatial_dim in
  let s := Z.rem index spatial_dim in
  summed (mutable_gpu_data (scale_ demo_layer)) (n * spatial_dim + s)
  = 0%float.
Proof.
  intros C S summed. split; [reflexivity|]. split; [unfold C; simpl; lia|].
  exact (proj2 forward_double_below_summed).
Qed.

Hypothesis Hzero : exp_of_zero exp_double.

(** The same pipeline on a store holding 0: the output is 1. *)
Lemma forward_double_shifted_output :
  kernel_channel_div (ops := double_ops exp_double)
    (count unit_bottom) (num unit_bottom) (channels unit_bottom)
    (height unit_bottom * width unit_bottom)
    (mutable_gpu_data (scale_ demo_layer)) (mutable_gpu_data unit_top)
    (forward_cuda_summed (ops := double_ops exp_double)
       (count unit_bottom) (num unit_bottom) (channels unit_bottom)
       (height unit_bottom * width unit_bottom) (gpu_data unit_bottom)
       (mutable_gpu_data unit_top) (mutable_gpu_data (scale_ demo_layer))
       double_shifted_mem)
    (mutable_gpu_data unit_top) 0 = 1%float.
Proof.
  change 0 with (linear_index (channels unit_bottom)
                   (height unit_bottom * width unit_bottom) 0 0 0) at 1.
  rewrite forward_cuda_divided_at by (try apply count_eq; simpl; lia).
  unfold scan_sum, scan_max, for_int.
  change (Z.to_nat (channels unit_bottom)) with 1%nat.
  cbn [loop_upto].
  change (double_shifted_mem _ _) with 0%float.
  cbn [d_exp d_sub d_max d_add d_div d_zero d_neg_FLT_MAX double_ops].
  change (PrimFloat.sub 0 (fmax 0 double_neg_FLT_MAX)) with 0%float.
  rewrite Hzero. reflexivity.
Qed.

(** C5, at the input where the code departs from it.  The one-element
    [double] tensor [-2^130] and the same tensor with [2^130] added, which
    is exactly 0: the forward pass gives a NaN on the first and 1 on the
    second. *)
Theorem Forward_gpu_double_shift_changes_output :
  (forall p i,
     double_shifted_mem p i
     = PrimFloat.add (double_below_mem p i) (0x1p130)%float) /\
  double_shifted_mem (gpu_data unit_bottom) 0 = 0%float /\
  exists m' m_shifted',
    Forward_gpu (ops := double_ops exp_double) false idle_program_double
      demo_layer [unit_bottom] [unit_top] double_below_mem = Some m' /\
    Forward_gpu (ops := double_ops exp_double) false idle_program_double
      demo_layer [unit_bottom] [unit_top] double_shifted_mem
    = Some m_shifted' /\
    PrimFloat.is_nan (m' (mutable_gpu_data unit_top) 0) = true /\
    m_shifted' (mutable_gpu_data unit_top) 0 = 1%float.
Proof.
  split; [reflexivity|]. split; [reflexivity|].
  do 2 eexists. split; [reflexivity|]. split; [reflexivity|]. split.
  - exact forward_double_below_output.
  - exact forward_double_shifted_output.
Qed.

(** Underflow without the clamp: on the [double] image [0, -1001] the
    forward pass gives exactly [1, 0]. *)
Lemma Forward_gpu_double_underflow_zero :
  exists m',
    Forward_gpu (ops := double_ops exp_double) false idle_program_double
      demo_layer [demo_bottom] [demo_top] double_underflow_mem = Some m' /\
    m' (mutable_gpu_data demo_top) 0 = 1%float /\
    m' (mutable_gpu_data demo_top) 1 = 0%float.
Proof.
  assert (E1 : exp_double (PrimFloat.sub (-1001) 0) = 0%float)
    by (apply Hunder; vm_compute; reflexivity).
  eexists. split; [reflexivity|]. split.
  - change 0 with (linear_index (channels demo_bottom)
                     (height demo_bottom * width demo_bottom) 0 0 0) at 1.
    change (kernel_channel_div _ _ _ _ _ _ ?m0)
      with (kernel_channel_div (ops := double_ops exp_double)
              (count demo_bottom) (num demo_bottom) (channels demo_bottom)
              (height demo_bottom * width demo_bottom)
              (mutable_gpu_data (scale_ demo_layer))
              (mutable_gpu_data demo_top)
              (forward_cuda_summed (ops := double_ops exp_double)
                 (count demo_bottom) (num demo_bottom) (channels demo_bottom)
                 (height demo_bottom * width demo_bottom)
                 (gpu_data demo_bottom) (mutable_gpu_data demo_top)
                 (mutable_gpu_data (scale_ demo_layer))
                 double_underflow_mem)).
    rewrite forward_cuda_divided_at by (try apply count_eq; simpl; lia).
    unfold scan_sum, scan_max, for_int.
    change (Z.to_nat (channels demo_bottom)) with 2%nat.
    cbn [loop_upto].
    change (double_underflow_mem _ (linear_index _ _ 0 (Z.of_nat 0) 0))
      with 0%float.
    change (double_underflow_mem _ (linear_index _ _ 0 (Z.of_nat 1) 0))
      with (-1001)%float.
    change (double_underflow_mem _ (linear_index _ _ 0 0 0)) with 0%float.
    cbn [d_exp d_sub d_max d_add d_div d_zero d_neg_FLT_MAX double_ops].
    change (fmax (-1001) (fmax 0 double_neg_FLT_MAX)) with 0%float.
    change (PrimFloat.sub 0 0) with 0%float.
    rewrite E1, Hzero. reflexivity.
  - change 1 with (linear_index (channels demo_bottom)
                     (height demo_bottom * width demo_bottom) 0 1 0) at 1.
    change (kernel_channel_div _ _ _ _ _ _ ?m0)
      with (kernel_channel_div (ops := double_ops exp_double)
              (count demo_bottom) (num demo_bottom) (channels demo_bottom)
              (height demo_bottom * width demo_bottom)
              (mutable_gpu_data (scale_ demo_layer))
              (mutable_gpu_data demo_top)
              (forward_cuda_summed (ops := double_ops exp_double)
                 (count demo_bottom) (num demo_bottom) (channels demo_bottom)
                 (height demo_bottom * width demo_bottom)
                 (gpu_data demo_bottom) (mutable_gpu_data demo_top)
                 (mutable_gpu_data (scale_ demo_layer))
                 double_underflow_mem)).
    rewrite forward_cuda_divided_at by (try apply count_eq; simpl; lia).
    unfold scan_sum, scan_max, for_int.
    change (Z.to_nat (channels demo_bottom)) with 2%nat.
    cbn [loop_upto].
    change (double_underflow_mem _ (linear_index _ _ 0 (Z.of_nat 0) 0))
      with 0%float.
    change (double_underflow_mem _ (linear_index _ _ 0 (Z.of_nat 1) 0))
      with (-1001)%float.
    change (double_underflow_mem _ (linear_index _ _ 0 1 0))
      with (-1001)%float.
    cbn [d_exp d_sub d_max d_add d_div d_zero d_neg_FLT_MAX double_ops].
    change (fmax (-1001) (fmax 0 double_neg_FLT_MAX)) with 0%float.
    change (PrimFloat.sub 0 0) with 0%float.
    rewrite E1, Hzero. reflexivity.
Qed.

End DoublePrecision.

(** * The further properties at concrete configurations *)

Lemma schedule_backwards : schedule (1 * 2) [1; 0].
Proof.
  split.
  - constructor; [simpl; lia|]. constructor; [simpl; tauto | constructor].
  - intros index. simpl. lia.
Qed.

Lemma reduction_kernels_any_order_witness :
  run_workers [1; 0] (kernel_channel_max_worker 1 2 2 1 5) demo_mem 5 1
  = kernel_channel_max 1 2 2 1 5 demo_mem 5 1.
Proof.
  destruct (reduction_kernels_any_order 1 2 2 1 3 5 demo_mem [1; 0]
              ltac:(lia) ltac:(lia) schedule_backwards 5 1) as [E _].
  exact E.
Defined.

Lemma elementwise_kernels_any_order_witness :
  run_workers [1; 0] (kernel_channel_subtract_worker 2 1 2 1 5 3) demo_mem 3 0
  = kernel_channel_subtract 2 1 2 1 5 3 demo_mem 3 0.
Proof.
  destruct (elementwise_kernels_any_order (1 * 2) 1 2 1 5 3 3 demo_mem [1; 0]
              ltac:(lia) schedule_backwards 3 0) as [E _].
  exact E.
Defined.

Lemma kernel_channel_div_broadcast_witness :
  kernel_channel_div (1 * 2 * 1) 1 2 1 5 3 demo_mem 3
    (linear_index 2 1 0 1 0)
  = (demo_mem 3%Z (linear_index 2 1 0 1 0)
     / demo_mem 5%Z (group_index 1 0 0))%R.
Proof.
  destruct (kernel_channel_div_broadcast 1 2 1 5 3 demo_mem)
    as [_ [W _]]; [lia | lia | lia |].
  apply W; lia.
Defined.

Lemma reductions_without_channels_witness :
  kernel_channel_max 1 0 1 1 5 demo_mem 5 0 = (- FLT_MAX)%R /\
  kernel_channel_sum 1 0 1 1 5 demo_mem 5 0 = 0%R /\
  kernel_channel_dot 1 0 1 1 3 5 demo_mem 5 0 = 0%R.
Proof.
  exact (reductions_without_channels 1 0 1 1 3 5 demo_mem ltac:(lia)
           0 ltac:(lia)).
Defined.

Lemma kernel_channel_max_clamped_witness :
  kernel_channel_max 1 2 1 1 5 demo_mem 5 (group_index 1 0 0)
  = Rmax (max_c 2 (fun c => demo_mem 1 (linear_index 2 1 0 c 0))) (- FLT_MAX).
Proof.
  destruct (kernel_channel_max_clamped 1 2 1 1 5 demo_mem
              ltac:(lia) ltac:(lia) 0 0 ltac:(lia) ltac:(lia)) as [E _].
  exact E.
Defined.

Lemma Forward_gpu_write_bounds_witness :
  exists m',
    Forward_gpu false idle_program demo_layer [demo_bottom] [demo_top]
      demo_mem = Some m' /\
    m' (mutable_gpu_data demo_top) 2 = demo_mem (mutable_gpu_data demo_top) 2.
Proof.
  destruct (Forward_gpu_write_bounds false idle_program demo_layer
              demo_bottom [] demo_top [] demo_mem eq_refl) as [m' [E V]].
  exists m'. split; [exact E|].
  apply V; [right; right; vm_compute; congruence | left; simpl; lia].
Defined.

Lemma Forward_gpu_reads_input_only_witness :
  exists m1' m2',
    Forward_gpu false idle_program demo_layer [demo_bottom] [demo_top]
      demo_mem = Some m1' /\
    Forward_gpu false idle_program demo_layer [demo_bottom] [demo_bottom]
      demo_mem = Some m2' /\
    m1' (mutable_gpu_data demo_top) (linear_index 2 (1 * 1) 0 1 0)
    = m2' (mutable_gpu_data demo_bottom) (linear_index 2 (1 * 1) 0 1 0).
Proof.
  destruct (Forward_gpu_reads_input_only false idle_program demo_layer
              demo_bottom [] demo_top [] demo_bottom [] demo_mem demo_mem)
    as [m1' [m2' [E1 [E2 V]]]];
    [reflexivity | simpl; lia | simpl; lia | reflexivity |].
  exists m1', m2'. split; [exact E1|]. split; [exact E2|].
  apply (V 0 1 0); simpl; lia.
Defined.

Lemma Forward_gpu_without_channels_witness :
  exists m',
    Forward_gpu false idle_program demo_layer [empty_bottom] [demo_top]
      demo_mem = Some m' /\
    m' (mutable_gpu_data demo_top) 0 = demo_mem (mutable_gpu_data demo_top) 0 /\
    m' (mutable_gpu_data (scale_ demo_layer)) 0 = 0%R.
Proof.
  destruct (Forward_gpu_without_channels false idle_program demo_layer
              empty_bottom [] demo_top [] demo_mem eq_refl eq_refl)
    as [m' [E [F Z]]].
  exists m'. split; [exact E|]. split.
  - apply F. simpl. lia.
  - apply Z. simpl. lia.
Defined.


Lemma kernel_channel_sum_in_order_witness :
  kernel_channel_sum 1 2 1 1 5 demo_mem 5 (group_index 1 0 0)
  = loop_upto (Z.to_nat 2)
      (fun c sum => d_add sum (demo_mem 1 (linear_index 2 1 0 c 0))) d_zero.
Proof.
  destruct (kernel_channel_sum_in_order 1 2 1 1 5 demo_mem) as [V _]; [lia|].
  apply V; lia.
Defined.

Lemma kernel_channel_dot_in_order_witness :
  kernel_channel_dot 1 2 1 4 3 5 grad_mem 5 (group_index 1 0 0)
  = loop_upto (Z.to_nat 2)
      (fun c dot =>
         d_add dot
           (d_mul (grad_mem 4 (linear_index 2 1 0 c 0))
                  (grad_mem 3 (linear_index 2 1 0 c 0)))) d_zero.
Proof.
  destruct (kernel_channel_dot_in_order 1 2 1 4 3 5 grad_mem) as [V _];
    [lia | lia |].
  apply V; lia.
Defined.

Lemma Forward_gpu_double_below_single_witness :
  exists m',
    Forward_gpu (ops := double_ops exp_flushed) false idle_program_double
      demo_layer [unit_bottom] [unit_top] double_below_mem = Some m' /\
    PrimFloat.is_nan (m' (mutable_gpu_data unit_top) 0) = true.
Proof.
  destruct (Forward_gpu_double_below_single exp_flushed)
    as [m' [E [H _]]];
    [intros x Hx; unfold exp_flushed; rewrite Hx; reflexivity|].
  exists m'. split; [exact E | exact H].
Defined.

Lemma forward_divisor_double_zero_witness :
  forward_cuda_summed (ops := double_ops exp_flushed)
    (count unit_bottom) (num unit_bottom) (channels unit_bottom)
    (height unit_bottom * width unit_bottom) (gpu_data unit_bottom)
    (mutable_gpu_data unit_top) (mutable_gpu_data (scale_ demo_layer))
    double_below_mem (mutable_gpu_data (scale_ demo_layer)) 0
  = 0%float.
Proof.
  destruct (forward_divisor_double_zero exp_flushed) as [_ [_ H]];
    [intros x Hx; unfold exp_flushed; rewrite Hx; reflexivity|].
  exact H.
Defined.

Lemma Forward_gpu_double_shift_changes_output_witness :
  exists m' m_shifted',
    Forward_gpu (ops := double_ops exp_flushed) false idle_program_double
      demo_layer [unit_bottom] [unit_top] double_below_mem = Some m' /\
    Forward_gpu (ops := double_ops exp_flushed) false idle_program_double
      demo_layer [unit_bottom] [unit_top] double_shifted_mem
    = Some m_shifted' /\
    PrimFloat.is_nan (m' (mutable_gpu_data unit_top) 0) = true /\
    m_shifted' (mutable_gpu_data unit_top) 0 = 1%float.
Proof.
  destruct (Forward_gpu_double_shift_changes_output exp_flushed)
    as [_ [_ H]];
    [intros x Hx; unfold exp_flushed; rewrite Hx; reflexivity
    | reflexivity |].
  exact H.
Defined.
